(** * Five Crowns: meld validation and meld search

    A shallow embedding of [five_crowns.py] (cards, wild rule, the book and
    run validators, [validate_all_melds]), of [meld_finder.py] (candidate
    enumeration, deduplication, the greedy partition search, [can_go_out])
    and of [game_engine.py] ([Deck], [Player], [GameState] and the turn
    operations of [GameEngine]).

    Python exceptions are modelled explicitly: a dictionary lookup that can
    raise [KeyError] returns an [option], [None] standing for the raise;
    the engine returns a [Res], either a value or the exception raised. *)

From Stdlib Require Import String Ascii.
From Stdlib Require Import Bool List ZArith Arith Lia Permutation Sorted.
Import ListNotations.

(* ------------------------------------------------------------------ *)
(** ** Python helpers *)

(** [range(a, b)] over naturals. *)
Definition range (a b : nat) : list nat := seq a (b - a).

(** [itertools.combinations(l, k)], in the same lexicographic order of
    positions. *)
Fixpoint combinations {A : Type} (l : list A) (k : nat) : list (list A) :=
  match k with
  | O => [[]]
  | S k' =>
      match l with
      | [] => []
      | x :: xs => map (cons x) (combinations xs k') ++ combinations xs k
      end
  end.

(** Python indexing [l[i]] with negative indices counted from the end;
    [None] is an [IndexError]. *)
Definition py_index {A : Type} (l : list A) (i : Z) : option A :=
  if (0 <=? i)%Z then nth_error l (Z.to_nat i)
  else if (- Z.of_nat (length l) <=? i)%Z
       then nth_error l (Z.to_nat (Z.of_nat (length l) + i))
       else None.

(** Decimal rendering of a natural, as in an f-string. *)
Fixpoint digits_aux (fuel n : nat) (acc : string) : string :=
  match fuel with
  | O => acc
  | S f =>
      let acc' := String (ascii_of_nat (48 + n mod 10)) acc in
      if n <? 10 then acc' else digits_aux f (n / 10) acc'
  end.

Definition string_of_nat (n : nat) : string := digits_aux (S n) n ""%string.

Definition string_of_Z (z : Z) : string :=
  if (z <? 0)%Z then ("-" ++ string_of_nat (Z.to_nat (- z)))%string
  else string_of_nat (Z.to_nat z).

(* ------------------------------------------------------------------ *)
(** ** five_crowns.py: cards *)

(** [class Suit(Enum)]. *)
Inductive Suit : Type := SPADES | HEARTS | CLUBS | DIAMONDS | STARS | JOKER.

(** The rank strings ['3'] .. ['10'], ['J'], ['Q'], ['K'], ['Joker']. *)
Inductive Rank : Type :=
  R3 | R4 | R5 | R6 | R7 | R8 | R9 | R10 | RJ | RQ | RK | Joker.

Definition Suit_eq_dec (a b : Suit) : {a = b} + {a <> b}.
Proof. decide equality. Defined.

Definition Rank_eq_dec (a b : Rank) : {a = b} + {a <> b}.
Proof. decide equality. Defined.

Definition suit_eqb (a b : Suit) : bool := if Suit_eq_dec a b then true else false.
Definition rank_eqb (a b : Rank) : bool := if Rank_eq_dec a b then true else false.

(** [@dataclass class Card]; equality is structural ([__eq__]). *)
Record Card : Type := mkCard { rank : Rank; suit : Suit }.

Definition card_eqb (a b : Card) : bool :=
  rank_eqb (rank a) (rank b) && suit_eqb (suit a) (suit b).

(** [create_joker()]. *)
Definition create_joker : Card := mkCard Joker JOKER.

(** [@dataclass class ValidationResult]. *)
Record ValidationResult : Type :=
  mkValidationResult { is_valid : bool; error_message : option string }.

(** The exceptions of [get_wild_card]. *)
Inductive PyError : Type :=
| ValueError (msg : string)
| IndexError.

Inductive PyResult (A : Type) : Type :=
| Ok (a : A)
| Err (e : PyError).
Arguments Ok {A} a.
Arguments Err {A} e.

(* ------------------------------------------------------------------ *)
(** ** five_crowns.py: class MeldValidator *)

Module MeldValidator.

Definition RANK_ORDER : list Rank := [R3; R4; R5; R6; R7; R8; R9; R10; RJ; RQ; RK].

Fixpoint index_from (i : nat) (r : Rank) (l : list Rank) : option nat :=
  match l with
  | [] => None
  | x :: l' => if rank_eqb x r then Some i else index_from (S i) r l'
  end.

(** [RANK_VALUES = {rank: i for i, rank in enumerate(RANK_ORDER)}];
    [None] is the [KeyError] of [RANK_VALUES[r]]. *)
Definition RANK_VALUES (r : Rank) : option nat := index_from 0 r RANK_ORDER.

Definition get_wild_card (round_number : Z) : PyResult Rank :=
  if ((round_number <? 1) || (11 <? round_number))%Z then
    Err (ValueError ("Round must be 1-11, got " ++ string_of_Z round_number)%string)
  else
    match py_index RANK_ORDER (round_number - 1) with
    | Some r => Ok r
    | None => Err IndexError
    end.

Definition is_wild (card : Card) (wild_rank : Rank) : bool :=
  rank_eqb (rank card) wild_rank || rank_eqb (rank card) Joker.

Definition non_wilds_of (cards : list Card) (wild_rank : Rank) : list Card :=
  filter (fun c => negb (is_wild c wild_rank)) cards.

(** The [suits_seen] loop of [is_valid_book]. *)
Fixpoint suits_distinct (suits_seen : list Suit) (cards : list Card) : bool :=
  match cards with
  | [] => true
  | c :: cs =>
      if existsb (suit_eqb (suit c)) suits_seen then false
      else suits_distinct (suit c :: suits_seen) cs
  end.

Definition is_valid_book (cards : list Card) (wild_rank : Rank) : bool :=
  if length cards <? 3 then false else
  let non_wilds := non_wilds_of cards wild_rank in
  match non_wilds with
  | [] => false
  | c0 :: _ =>
      if negb (forallb (fun c => rank_eqb (rank c) (rank c0)) non_wilds) then false
      else suits_distinct [] non_wilds
  end.

(** The keys of [sorted(non_wilds, key=lambda c: RANK_VALUES[c.rank])],
    paired with their cards; [None] is the [KeyError]. *)
Fixpoint key_by_rank (cards : list Card) : option (list (nat * Card)) :=
  match cards with
  | [] => Some []
  | c :: cs =>
      match RANK_VALUES (rank c) with
      | None => None
      | Some k =>
          match key_by_rank cs with
          | None => None
          | Some ks => Some ((k, c) :: ks)
          end
      end
  end.

(** A stable insertion sort on the key, as Python's [sorted]. *)
Fixpoint insert_keyed (x : nat * Card) (l : list (nat * Card)) : list (nat * Card) :=
  match l with
  | [] => [x]
  | y :: l' => if fst x <=? fst y then x :: l else y :: insert_keyed x l'
  end.

Fixpoint sort_keyed (l : list (nat * Card)) : list (nat * Card) :=
  match l with
  | [] => []
  | x :: l' => insert_keyed x (sort_keyed l')
  end.

(** The [ranks_seen] loop of [is_valid_run]. *)
Fixpoint ranks_distinct (ranks_seen : list Rank) (l : list (nat * Card)) : bool :=
  match l with
  | [] => true
  | (_, c) :: l' =>
      if existsb (rank_eqb (rank c)) ranks_seen then false
      else ranks_distinct (rank c :: ranks_seen) l'
  end.

(** [wilds_needed_for_gaps]: the sum over adjacent sorted cards of
    [RANK_VALUES[next] - RANK_VALUES[cur] - 1]. *)
Fixpoint gap_sum (l : list (nat * Card)) : Z :=
  match l with
  | a :: ((b :: _) as l') => (Z.of_nat (fst b) - Z.of_nat (fst a) - 1) + gap_sum l'
  | _ => 0
  end%Z.

(** [is_valid_run] after the sort: everything from [wild_count] on. *)
Definition run_tail (cards : list Card) (wild_rank : Rank) (non_wilds : list Card)
    (sorted_cards : list (nat * Card)) : bool :=
  let wild_count := (Z.of_nat (length cards) - Z.of_nat (length non_wilds))%Z in
  if negb (ranks_distinct [] sorted_cards) then false else
  let wilds_needed_for_gaps := gap_sum sorted_cards in
  if (wild_count <? wilds_needed_for_gaps)%Z then false else
  let remaining_wilds := (wild_count - wilds_needed_for_gaps)%Z in
  match sorted_cards with
  | [] => false
  | first :: _ =>
      let lowest_rank_value := Z.of_nat (fst first) in
      let highest_rank_value := Z.of_nat (fst (last sorted_cards first)) in
      let min_span := (highest_rank_value - lowest_rank_value + 1)%Z in
      let expected_length := (min_span + remaining_wilds)%Z in
      if negb (Z.of_nat (length cards) =? expected_length)%Z then false else
      let has_rank_k := existsb (fun c => rank_eqb (rank c) RK) cards in
      let has_rank_3_as_start :=
        if (lowest_rank_value =? 0)%Z then true
        else if rank_eqb wild_rank R3 then
          existsb (fun c => rank_eqb (rank c) R3) cards && (lowest_rank_value =? 1)%Z
        else false in
      if (0 <? remaining_wilds)%Z then
        let max_wilds_at_start := lowest_rank_value in
        let max_wilds_at_end := (10 - highest_rank_value)%Z in
        if has_rank_k && (highest_rank_value =? 10)%Z then false
        else if has_rank_3_as_start then false
        else if (max_wilds_at_start + max_wilds_at_end <? remaining_wilds)%Z then false
        else true
      else true
  end.

Definition is_valid_run (cards : list Card) (wild_rank : Rank) : option bool :=
  if length cards <? 3 then Some false else
  let non_wilds := non_wilds_of cards wild_rank in
  match non_wilds with
  | [] => Some false
  | c0 :: _ =>
      if negb (forallb (fun c => suit_eqb (suit c) (suit c0)) non_wilds) then Some false
      else
        match key_by_rank non_wilds with
        | None => None
        | Some keyed => Some (run_tail cards wild_rank non_wilds (sort_keyed keyed))
        end
  end.

(** [is_run] as a boolean, once the lookup has succeeded. *)
Definition run_ok (cards : list Card) (wild_rank : Rank) : bool :=
  match is_valid_run cards wild_rank with Some true => true | _ => false end.

Definition too_small_message (i : nat) (meld : list Card) : string :=
  ("Group " ++ string_of_nat (i + 1) ++ " has only " ++ string_of_nat (length meld)
   ++ " cards (need 3+)")%string.

Definition neither_message (i : nat) : string :=
  ("Group " ++ string_of_nat (i + 1) ++ " is neither a valid book nor run")%string.

(** The [for i, meld in enumerate(melds)] loop, from index [i]. *)
Fixpoint validate_from (i : nat) (melds : list (list Card)) (wild_card_rank : Rank)
    : option ValidationResult :=
  match melds with
  | [] => Some (mkValidationResult true None)
  | meld :: rest =>
      if length meld <? 3 then
        Some (mkValidationResult false (Some (too_small_message i meld)))
      else
        let is_book := is_valid_book meld wild_card_rank in
        match is_valid_run meld wild_card_rank with
        | None => None
        | Some is_run =>
            if negb (is_book || is_run) then
              Some (mkValidationResult false (Some (neither_message i)))
            else validate_from (S i) rest wild_card_rank
        end
  end.

Definition validate_all_melds (melds : list (list Card)) (wild_card_rank : Rank)
    : option ValidationResult :=
  match melds with
  | [] => Some (mkValidationResult true None)
  | _ => validate_from 0 melds wild_card_rank
  end.

End MeldValidator.

(* ------------------------------------------------------------------ *)
(** ** Option plumbing for the raising code *)

Definition obind {A B : Type} (m : option A) (k : A -> option B) : option B :=
  match m with Some a => k a | None => None end.

Notation "x <- m ;; k" := (obind m (fun x => k))
  (at level 61, m at next level, right associativity).

(** [for a in l: ...] collecting into a list, any step of which may raise. *)
Fixpoint oflat_map {A B : Type} (f : A -> option (list B)) (l : list A)
    : option (list B) :=
  match l with
  | [] => Some []
  | a :: l' => xs <- f a ;; ys <- oflat_map f l' ;; Some (xs ++ ys)
  end.

(* ------------------------------------------------------------------ *)
(** ** meld_finder.py: class MeldFinder

    Python tells physically distinct cards apart by [id(card)].  A card
    object is therefore a pair of an identity and a card value; a hand
    allocates distinct identities [0 .. n-1] to its cards. *)

Module MeldFinder.
Import MeldValidator.

Definition Obj : Type := (nat * Card)%type.
Definition Meld : Type := list Obj.

Definition cards_of (m : Meld) : list Card := map snd m.
Definition ids_of (m : Meld) : list nat := map fst m.

(** The card objects of a freshly dealt hand. *)
Definition hand_objects (hand : list Card) : list Obj :=
  combine (seq 0 (length hand)) hand.

(** [x in used_cards] for a set of identities. *)
Definition mem_id (i : nat) (used : list nat) : bool := existsb (Nat.eqb i) used.

(** [d[k].append(o)] with [d[k] = []] first when [k] is new: a dict in
    insertion order, as an association list. *)
Fixpoint group_append {K : Type} (eqb : K -> K -> bool) (k : K) (o : Obj)
    (groups : list (K * list Obj)) : list (K * list Obj) :=
  match groups with
  | [] => [(k, [o])]
  | (k', os) :: gs =>
      if eqb k' k then (k', os ++ [o]) :: gs else (k', os) :: group_append eqb k o gs
  end.

(** The first loop of [find_all_books] / [find_all_runs]: wild cards go to
    [wilds], the others to the group of their key. *)
Definition split_step {K : Type} (eqb : K -> K -> bool) (key : Card -> K) (wild_rank : Rank)
    (acc : list (K * list Obj) * list Obj) (o : Obj) : list (K * list Obj) * list Obj :=
  let '(groups, wilds) := acc in
  if is_wild (snd o) wild_rank then (groups, wilds ++ [o])
  else (group_append eqb (key (snd o)) o groups, wilds).

Definition split_hand {K : Type} (eqb : K -> K -> bool) (key : Card -> K)
    (hand : list Obj) (wild_rank : Rank) : list (K * list Obj) * list Obj :=
  fold_left (split_step eqb key wild_rank) hand ([], []).

Definition keep_book (b : Meld) (wild_rank : Rank) : list Meld :=
  if is_valid_book (cards_of b) wild_rank then [b] else [].

Definition find_all_books (hand : list Obj) (wild_rank : Rank) : list Meld :=
  let '(rank_groups, wilds) := split_hand rank_eqb rank hand wild_rank in
  let first_pass :=
    flat_map (fun '(_, cards_of_rank) =>
      flat_map (fun num_cards =>
        flat_map (fun combo =>
          keep_book combo wild_rank ++
          flat_map (fun num_wilds =>
            if length combo + num_wilds <? 3 then []
            else flat_map (fun wild_combo => keep_book (combo ++ wild_combo) wild_rank)
                   (combinations wilds num_wilds))
            (range 1 (length wilds + 1)))
          (combinations cards_of_rank num_cards))
        (range 3 (length cards_of_rank + 1)))
      rank_groups in
  let mostly_wilds :=
    flat_map (fun '(_, cards_of_rank) =>
      flat_map (fun card =>
        flat_map (fun num_wilds =>
          flat_map (fun wild_combo => keep_book (card :: wild_combo) wild_rank)
            (combinations wilds num_wilds))
          (range 2 (length wilds + 1)))
        (firstn 1 cards_of_rank))
      rank_groups in
  first_pass ++ mostly_wilds.

(** [if MeldValidator.is_valid_run(run, wild_rank): runs.append(run)]. *)
Definition keep_run (r : Meld) (wild_rank : Rank) : option (list Meld) :=
  b <- is_valid_run (cards_of r) wild_rank ;; Some (if b then [r] else []).

(** [sorted(cards_of_suit, key=lambda c: RANK_VALUES[c.rank])]. *)
Fixpoint key_objs (os : list Obj) : option (list (nat * Obj)) :=
  match os with
  | [] => Some []
  | o :: os' =>
      k <- RANK_VALUES (rank (snd o)) ;; ks <- key_objs os' ;; Some ((k, o) :: ks)
  end.

Fixpoint insert_obj (x : nat * Obj) (l : list (nat * Obj)) : list (nat * Obj) :=
  match l with
  | [] => [x]
  | y :: l' => if fst x <=? fst y then x :: l else y :: insert_obj x l'
  end.

Fixpoint sort_objs (l : list (nat * Obj)) : list (nat * Obj) :=
  match l with
  | [] => []
  | x :: l' => insert_obj x (sort_objs l')
  end.

Definition sorted_by_rank (os : list Obj) : option (list Obj) :=
  ks <- key_objs os ;; Some (map snd (sort_objs ks)).

Definition find_all_runs (hand : list Obj) (wild_rank : Rank) : option (list Meld) :=
  let '(suit_groups, wilds) := split_hand suit_eqb suit hand wild_rank in
  first_pass <-
    oflat_map (fun '(_, cards_of_suit) =>
      sorted_cards <- sorted_by_rank cards_of_suit ;;
      oflat_map (fun combo_size =>
        oflat_map (fun combo =>
          here <- keep_run combo wild_rank ;;
          more <- oflat_map (fun num_wilds =>
                    oflat_map (fun wild_combo => keep_run (combo ++ wild_combo) wild_rank)
                      (combinations wilds num_wilds))
                    (range 1 (length wilds + 1)) ;;
          Some (here ++ more))
          (combinations sorted_cards combo_size))
        (range 3 (length sorted_cards + 1)))
      suit_groups ;;
  mostly_wilds <-
    oflat_map (fun '(_, cards_of_suit) =>
      oflat_map (fun combo_size =>
        oflat_map (fun combo =>
          oflat_map (fun num_wilds =>
            oflat_map (fun wild_combo =>
              let r := combo ++ wild_combo in
              if 3 <=? length r then keep_run r wild_rank else Some [])
              (combinations wilds num_wilds))
            (range (3 - combo_size) (length wilds + 1)))
          (combinations cards_of_suit combo_size))
        (range 1 (Nat.min 3 (length cards_of_suit + 1))))
      suit_groups ;;
  Some (first_pass ++ mostly_wilds).

Definition find_all_melds (hand : list Obj) (wild_rank : Rank) : option (list Meld) :=
  runs <- find_all_runs hand wild_rank ;; Some (find_all_books hand wild_rank ++ runs).

(** [_cards_to_frozenset]: the set of [(rank, suit)] pairs of a meld.  Two
    frozensets are equal when each contains the other. *)
Definition cards_to_frozenset (m : Meld) : list (Rank * Suit) :=
  map (fun o => (rank (snd o), suit (snd o))) m.

Definition pair_eqb (x y : Rank * Suit) : bool :=
  rank_eqb (fst x) (fst y) && suit_eqb (snd x) (snd y).

Definition frozenset_eqb (s t : list (Rank * Suit)) : bool :=
  forallb (fun x => existsb (pair_eqb x) t) s && forallb (fun y => existsb (pair_eqb y) s) t.

(** The [# Remove duplicate melds] loop of [find_best_meld_combination]. *)
Fixpoint dedup_loop (seen : list (list (Rank * Suit))) (all_melds : list Meld) : list Meld :=
  match all_melds with
  | [] => []
  | meld :: rest =>
      let meld_set := cards_to_frozenset meld in
      if existsb (frozenset_eqb meld_set) seen then dedup_loop seen rest
      else meld :: dedup_loop (meld_set :: seen) rest
  end.

Definition remove_duplicate_melds (all_melds : list Meld) : list Meld := dedup_loop [] all_melds.

(** [int(card.rank)]: [None] is the [ValueError] on a non-numeric rank. *)
Definition int_of_rank (r : Rank) : option Z :=
  match r with
  | R3 => Some 3 | R4 => Some 4 | R5 => Some 5 | R6 => Some 6 | R7 => Some 7
  | R8 => Some 8 | R9 => Some 9 | R10 => Some 10
  | RJ | RQ | RK | Joker => None
  end%Z.

Definition card_value (card : Card) (wild_rank : Rank) : option Z :=
  if is_wild card wild_rank then Some 20%Z
  else if existsb (rank_eqb (rank card)) [RJ; RQ; RK] then Some 10%Z
  else int_of_rank (rank card).

Definition calculate_hand_value (cards : list Card) (wild_rank : Rank) : option Z :=
  fold_left (fun acc card => total <- acc ;; v <- card_value card wild_rank ;; Some (total + v)%Z)
    cards (Some 0%Z).

Definition used_ids (melds : list Meld) : list nat := flat_map ids_of melds.

Definition calculate_remaining_points (hand : list Obj) (melds : list Meld) (wild_rank : Rank)
    : option Z :=
  let used_cards := used_ids melds in
  let remaining := filter (fun o => negb (mem_id (fst o) used_cards)) hand in
  calculate_hand_value (cards_of remaining) wild_rank.

(** One pass of the [for meld in all_melds] loop of [_greedy_meld_selection]:
    the first meld disjoint from [used_cards] of strictly largest value. *)
Fixpoint select_best (wild_rank : Rank) (used_cards : list nat) (all_melds : list Meld)
    (best_meld : option Meld) (best_points_saved : Z) : option (option Meld * Z) :=
  match all_melds with
  | [] => Some (best_meld, best_points_saved)
  | meld :: rest =>
      if existsb (fun o => mem_id (fst o) used_cards) meld then
        select_best wild_rank used_cards rest best_meld best_points_saved
      else
        points_saved <- calculate_hand_value (cards_of meld) wild_rank ;;
        if (best_points_saved <? points_saved)%Z then
          select_best wild_rank used_cards rest (Some meld) points_saved
        else select_best wild_rank used_cards rest best_meld best_points_saved
  end.

(** The [while True] loop.  Each round adds a meld that then overlaps the
    used cards, so [length all_melds + 1] rounds always suffice (lemma
    [greedy_loop_enough_fuel]); running out of fuel answers [None]. *)
Fixpoint greedy_loop (fuel : nat) (wild_rank : Rank) (all_melds : list Meld)
    (used_cards : list nat) (result : list Meld) : option (list Meld) :=
  match fuel with
  | O => None
  | S fuel' =>
      sel <- select_best wild_rank used_cards all_melds None 0%Z ;;
      match fst sel with
      | None => Some result
      | Some best_meld =>
          greedy_loop fuel' wild_rank all_melds (used_cards ++ ids_of best_meld)
            (result ++ [best_meld])
      end
  end.

Definition greedy_meld_selection (hand : list Obj) (all_melds : list Meld) (wild_rank : Rank)
    (current_melds : list Meld) : option (list Meld) :=
  greedy_loop (S (length all_melds)) wild_rank all_melds (used_ids current_melds) current_melds.

(** The [for i, start_meld in enumerate(unique_melds)] restarts. *)
Fixpoint try_starts (hand : list Obj) (unique_melds : list Meld) (wild_rank : Rank)
    (starts : list Meld) (best : list Meld * Z) : option (list Meld * Z) :=
  match starts with
  | [] => Some best
  | start_meld :: rest =>
      result <- greedy_meld_selection hand unique_melds wild_rank [start_meld] ;;
      remaining_points <- calculate_remaining_points hand result wild_rank ;;
      try_starts hand unique_melds wild_rank rest
        (if (remaining_points <? snd best)%Z then (result, remaining_points) else best)
  end.

(** [_find_best_combination_recursive] is omitted: it is pure, its result
    is discarded and its [update_best] callback is never invoked; the card
    values it computes were already computed without error for
    [best_remaining_points]. *)
Definition find_best_meld_combination (hand : list Obj) (wild_rank : Rank)
    : option (list Meld * Z) :=
  match hand with
  | [] => Some ([], 0%Z)
  | _ =>
      all_melds <- find_all_melds hand wild_rank ;;
      let unique_melds := remove_duplicate_melds all_melds in
      best_remaining_points <- calculate_hand_value (cards_of hand) wild_rank ;;
      best <- try_starts hand unique_melds wild_rank unique_melds ([], best_remaining_points) ;;
      result <- greedy_meld_selection hand unique_melds wild_rank [] ;;
      remaining_points <- calculate_remaining_points hand result wild_rank ;;
      Some (if (remaining_points <? snd best)%Z then (result, remaining_points) else best)
  end.

Definition can_go_out (hand : list Obj) (wild_rank : Rank)
    : option (bool * option (list Meld)) :=
  r <- find_best_meld_combination hand wild_rank ;;
  if (snd r =? 0)%Z then Some (true, Some (fst r)) else Some (false, None).

End MeldFinder.

(* ------------------------------------------------------------------ *)
(** ** Exceptions of the game engine

    The engine code raises [ValueError] and [IndexError] (as
    [get_wild_card] does), [KeyError] (a dictionary lookup) and
    [ZeroDivisionError] (a modulo by zero).  An exception aborts the call;
    the model returns it in place of the result. *)

Inductive EngineError : Type :=
| PyErr (e : PyError)
| KeyError
| ZeroDivisionError.

Inductive Res (A : Type) : Type :=
| Done (a : A)
| Raised (e : EngineError).
Arguments Done {A} a.
Arguments Raised {A} e.

Definition rbind {A B : Type} (m : Res A) (k : A -> Res B) : Res B :=
  match m with Done a => k a | Raised e => Raised e end.

Notation "x <-! m ;; k" := (rbind m (fun x => k))
  (at level 61, m at next level, right associativity).

Definition raise_value_error {A : Type} (msg : string) : Res A := Raised (PyErr (ValueError msg)).

(** Python's [l.pop()]: the last element and the list without it. *)
Definition py_pop {A : Type} (l : list A) : option (A * list A) :=
  match rev l with
  | [] => None
  | x :: r => Some (x, rev r)
  end.

(** Python's [l[i] = f(l[i])] on an index that [py_index] accepts. *)
Fixpoint update_nth {A : Type} (n : nat) (f : A -> A) (l : list A) : list A :=
  match l, n with
  | [], _ => []
  | x :: l', O => f x :: l'
  | x :: l', S n' => x :: update_nth n' f l'
  end.

Definition py_norm_index {A : Type} (l : list A) (i : Z) : option nat :=
  if (0 <=? i)%Z then (if (i <? Z.of_nat (length l))%Z then Some (Z.to_nat i) else None)
  else if (- Z.of_nat (length l) <=? i)%Z then Some (Z.to_nat (Z.of_nat (length l) + i))
  else None.

(* ------------------------------------------------------------------ *)
(** ** five_crowns.py: create_card *)

Module CardHelpers.

(** [suit_map] of [create_card]: one-letter suit codes. *)
Definition suit_map : list (string * Suit) :=
  [("S"%string, SPADES); ("H"%string, HEARTS); ("C"%string, CLUBS);
   ("D"%string, DIAMONDS); ("T"%string, STARS); ("J"%string, JOKER)].

(** [Card(rank, suit_map[suit])]; a missing key raises [KeyError]. *)
Definition create_card (r : Rank) (s : string) : Res Card :=
  match find (fun kv => String.eqb (fst kv) s) suit_map with
  | Some kv => Done (mkCard r (snd kv))
  | None => Raised KeyError
  end.

End CardHelpers.

(* ------------------------------------------------------------------ *)
(** ** game_engine.py *)

Module GameEngine.
Import MeldValidator MeldFinder.

Record Player : Type :=
  mkPlayer { name : string; hand : list Card; score : Z; is_human : bool }.

Definition calculate_hand_value (p : Player) (wild_rank : Rank) : option Z :=
  fold_left
    (fun acc card =>
       total <- acc ;;
       if is_wild card wild_rank then Some (total + 20)%Z
       else if existsb (rank_eqb (rank card)) [RJ; RQ; RK] then Some (total + 10)%Z
       else v <- int_of_rank (rank card) ;; Some (total + v)%Z)
    (hand p) (Some 0%Z).

(** [Player.add_card]: [self.hand.append(card)]. *)
Definition add_card (p : Player) (card : Card) : Player :=
  mkPlayer (name p) (hand p ++ [card]) (score p) (is_human p).

(** [list.remove(x)]: drop the first element equal to [x] (structural
    [Card.__eq__]); [None] when there is none. *)
Fixpoint py_remove (x : Card) (l : list Card) : option (list Card) :=
  match l with
  | [] => None
  | y :: l' =>
      if card_eqb y x then Some l'
      else match py_remove x l' with Some r => Some (y :: r) | None => None end
  end.

(** [Player.remove_card]: [self.hand.remove(card)]. *)
Definition remove_card (p : Player) (card : Card) : Res Player :=
  match py_remove card (hand p) with
  | Some h => Done (mkPlayer (name p) h (score p) (is_human p))
  | None => raise_value_error "list.remove(x): x not in list"%string
  end.

(** [suit_order] of [Player.sort_hand] and [suit_order.get(c.suit, 99)]. *)
Definition suit_order : list (Suit * Z) :=
  [(SPADES, 0); (HEARTS, 1); (CLUBS, 2); (DIAMONDS, 3); (STARS, 4); (JOKER, 5)]%Z.

Definition suit_order_get (s : Suit) (default : Z) : Z :=
  match find (fun kv => suit_eqb (fst kv) s) suit_order with
  | Some kv => snd kv
  | None => default
  end.

(** The sort key [(suit_order.get(c.suit, 99), RANK_VALUES.get(c.rank, -1))]. *)
Definition sort_key (c : Card) : Z * Z :=
  (suit_order_get (suit c) 99,
   match RANK_VALUES (rank c) with Some k => Z.of_nat k | None => (-1)%Z end).

(** Tuple comparison [a <= b]. *)
Definition key_leb (a b : Z * Z) : bool :=
  (fst a <? fst b)%Z || ((fst a =? fst b)%Z && (snd a <=? snd b)%Z).

(** The order of the sorted hand. *)
Definition key_le (a b : Card) : Prop := key_leb (sort_key a) (sort_key b) = true.

(** [list.sort(key=...)] is stable, so it agrees with a stable insertion
    sort: an element goes before the first element whose key is not
    smaller. *)
Fixpoint insert_card (x : Card) (l : list Card) : list Card :=
  match l with
  | [] => [x]
  | y :: l' => if key_leb (sort_key x) (sort_key y) then x :: l else y :: insert_card x l'
  end.

Fixpoint sort_cards (l : list Card) : list Card :=
  match l with
  | [] => []
  | x :: l' => insert_card x (sort_cards l')
  end.

Definition sort_hand (p : Player) : Player :=
  mkPlayer (name p) (sort_cards (hand p)) (score p) (is_human p).

(** [class Deck]: the draw pile and the discard pile, tops at the end. *)
Record Deck : Type := mkDeck { cards : list Card; discard_pile : list Card }.

(** [Deck._initialize_deck]. *)
Definition deck_ranks : list Rank := [R3; R4; R5; R6; R7; R8; R9; R10; RJ; RQ; RK].
Definition deck_suits : list Suit := [SPADES; HEARTS; CLUBS; DIAMONDS; STARS].

Definition initialize_deck : list Card :=
  flat_map (fun _ => flat_map (fun r => map (fun s => mkCard r s) deck_suits) deck_ranks)
    (range 0 2)
  ++ map (fun _ => create_joker) (range 0 6).

Definition new_deck : Deck := mkDeck initialize_deck [].

(** The loop of [Deck.deal]: [dealt_cards.append(self.cards.pop())]. *)
Fixpoint deal_loop (n : nat) (d : Deck) (dealt : list Card) : Res (list Card * Deck) :=
  match n with
  | O => Done (dealt, d)
  | S n' =>
      match py_pop (cards d) with
      | None => Raised (PyErr IndexError)
      | Some (c, rest) => deal_loop n' (mkDeck rest (discard_pile d)) (dealt ++ [c])
      end
  end.

Definition deal (d : Deck) (num_cards : Z) : Res (list Card * Deck) :=
  if (Z.of_nat (length (cards d)) <? num_cards)%Z then
    raise_value_error ("Not enough cards in deck: " ++ string_of_nat (length (cards d))
                       ++ " < " ++ string_of_Z num_cards)%string
  else deal_loop (Z.to_nat num_cards) d [].

Definition draw (d : Deck) : Res (Card * Deck) :=
  match cards d with
  | [] => raise_value_error "Deck is empty"%string
  | _ =>
      match py_pop (cards d) with
      | Some (c, rest) => Done (c, mkDeck rest (discard_pile d))
      | None => Raised (PyErr IndexError)
      end
  end.

Definition add_to_discard (d : Deck) (card : Card) : Deck :=
  mkDeck (cards d) (discard_pile d ++ [card]).

Definition draw_from_discard (d : Deck) : Res (Card * Deck) :=
  match discard_pile d with
  | [] => raise_value_error "Discard pile is empty"%string
  | _ =>
      match py_pop (discard_pile d) with
      | Some (c, rest) => Done (c, mkDeck (cards d) rest)
      | None => Raised (PyErr IndexError)
      end
  end.

Definition peek_discard (d : Deck) : option Card :=
  match discard_pile d with
  | [] => None
  | _ => py_index (discard_pile d) (-1)%Z
  end.

Definition cards_remaining (d : Deck) : nat := length (cards d).

(** [@dataclass class GameState]. *)
Record GameState : Type := mkGameState {
  round_number : Z;
  players : list Player;
  deck : Deck;
  current_player_index : Z;
  round_over : bool;
  game_over : bool }.

Definition set_players (st : GameState) (ps : list Player) : GameState :=
  mkGameState (round_number st) ps (deck st) (current_player_index st) (round_over st) (game_over st).

Definition set_deck (st : GameState) (d : Deck) : GameState :=
  mkGameState (round_number st) (players st) d (current_player_index st) (round_over st) (game_over st).

Definition to_res {A : Type} (r : PyResult A) : Res A :=
  match r with Ok a => Done a | Err e => Raised (PyErr e) end.

Definition get_wild_rank (st : GameState) : Res Rank := to_res (get_wild_card (round_number st)).

Definition get_cards_per_hand (st : GameState) : Z := (round_number st + 2)%Z.

Definition current_player (st : GameState) : Res Player :=
  match py_index (players st) (current_player_index st) with
  | Some p => Done p
  | None => Raised (PyErr IndexError)
  end.

(** Mutating [self.state.current_player()] in place. *)
Definition update_current (st : GameState) (f : Player -> Player) : Res GameState :=
  match py_norm_index (players st) (current_player_index st) with
  | Some n => Done (set_players st (update_nth n f (players st)))
  | None => Raised (PyErr IndexError)
  end.

Definition next_player (st : GameState) : Res GameState :=
  if (length (players st) =? 0)%nat then Raised ZeroDivisionError
  else Done (mkGameState (round_number st) (players st) (deck st)
               ((current_player_index st + 1) mod Z.of_nat (length (players st)))%Z
               (round_over st) (game_over st)).

(** The [for player in self.players] dealing loop of [start_new_round]. *)
Fixpoint deal_players (n : Z) (d : Deck) (ps : list Player) : Res (list Player * Deck) :=
  match ps with
  | [] => Done ([], d)
  | p :: ps' =>
      dd <-! deal d n ;;
      rest <-! deal_players n (snd dd) ps' ;;
      Done (sort_hand (mkPlayer (name p) (fst dd) (score p) (is_human p)) :: fst rest, snd rest)
  end.

(** [GameState.start_new_round].  [shuffled] is the order in which
    [random.shuffle] leaves the cards of the fresh [Deck()]. *)
Definition start_new_round (st : GameState) (shuffled : list Card) : Res GameState :=
  if (11 <? round_number st)%Z then
    Done (mkGameState (round_number st) (players st) (deck st) (current_player_index st)
            (round_over st) true)
  else
    let d := mkDeck shuffled [] in
    let cleared := map (fun p => mkPlayer (name p) [] (score p) (is_human p)) (players st) in
    let cards_to_deal := get_cards_per_hand st in
    pd <-! deal_players cards_to_deal d cleared ;;
    cd <-! draw (snd pd) ;;
    Done (mkGameState (round_number st) (fst pd) (add_to_discard (snd cd) (fst cd)) 0%Z
            false (game_over st)).

(** [GameEngine.__init__]. *)
Definition engine_init (player_names : list (string * bool)) : GameState :=
  mkGameState 1 (map (fun nh => mkPlayer (fst nh) [] 0 (snd nh)) player_names) new_deck 0 false false.

Definition can_draw_from_deck (st : GameState) : bool := (0 <? cards_remaining (deck st))%nat.

Definition can_draw_from_discard (st : GameState) : bool :=
  match peek_discard (deck st) with Some _ => true | None => false end.

(** [GameEngine.draw_card]. *)
Definition draw_card (st : GameState) (from_discard : bool) : Res (Card * GameState) :=
  cd <-! (if from_discard then draw_from_discard (deck st) else draw (deck st)) ;;
  st' <-! update_current (set_deck st (snd cd)) (fun p => add_card p (fst cd)) ;;
  Done (fst cd, st').

(** [GameEngine.discard_card]. *)
Definition discard_card (st : GameState) (card : Card) : Res GameState :=
  player <-! current_player st ;;
  player' <-! remove_card player card ;;
  st' <-! update_current st (fun _ => player') ;;
  Done (set_deck st' (add_to_discard (deck st') card)).

(** [set(...) == set(...)] for cards, with [Card.__eq__] / [__hash__]. *)
Definition card_set_eqb (l1 l2 : list Card) : bool :=
  forallb (fun c => existsb (card_eqb c) l2) l1 && forallb (fun c => existsb (card_eqb c) l1) l2.

(** [GameEngine.try_go_out].  [validate_all_melds] answering [None] is its
    [KeyError]. *)
Definition try_go_out (st : GameState) (melds : list (list Card))
    : Res ((bool * option string) * GameState) :=
  player <-! current_player st ;;
  wild_rank <-! get_wild_rank st ;;
  let cards_in_melds := fold_left (fun acc meld => acc + length meld) melds 0 in
  if negb (cards_in_melds =? length (hand player)) then
    Done ((false, Some ("Melds use " ++ string_of_nat cards_in_melds ++ " cards but hand has "
                        ++ string_of_nat (length (hand player)))%string), st)
  else if negb (card_set_eqb (concat melds) (hand player)) then
    Done ((false, Some "Melds contain cards not in hand"%string), st)
  else
    match validate_all_melds melds wild_rank with
    | None => Raised KeyError
    | Some validation_result =>
        if negb (is_valid validation_result) then
          Done ((false, error_message validation_result), st)
        else
          st' <-! update_current st (fun p => mkPlayer (name p) [] (score p) (is_human p)) ;;
          Done ((true, None),
                mkGameState (round_number st') (players st') (deck st')
                  (current_player_index st') true (game_over st'))
    end.

Definition end_round (st : GameState) : GameState :=
  mkGameState (round_number st + 1) (players st) (deck st) (current_player_index st)
    (round_over st) (game_over st).

(** [min(players, key=lambda p: p.score)]: the first player of least
    score. *)
Fixpoint min_by_score (best : Player) (ps : list Player) : Player :=
  match ps with
  | [] => best
  | p :: ps' => if (score p <? score best)%Z then min_by_score p ps' else min_by_score best ps'
  end.

Definition get_winner (st : GameState) : Res (option Player) :=
  if negb (game_over st) then Done None
  else match players st with
       | [] => raise_value_error "min() iterable argument is empty"%string
       | p :: ps => Done (Some (min_by_score p ps))
       end.

End GameEngine.

(* ------------------------------------------------------------------ *)
(** ** Vocabulary of the specification

    Names for the quantities the specification talks about, each computed
    the way [is_valid_run] computes it, and the notion of a partition of a
    hand into melds. *)

Module Spec.
Import MeldValidator MeldFinder.

(** [sorted_cards] of [is_valid_run]: the non-wild cards with their
    ordinals, in ascending order. *)
Definition run_sorted (cards : list Card) (wild_rank : Rank) : list (nat * Card) :=
  match key_by_rank (non_wilds_of cards wild_rank) with
  | Some keyed => sort_keyed keyed
  | None => []
  end.

Definition wild_count (cards : list Card) (wild_rank : Rank) : Z :=
  (Z.of_nat (length cards) - Z.of_nat (length (non_wilds_of cards wild_rank)))%Z.

Definition internal_gap_sum (cards : list Card) (wild_rank : Rank) : Z :=
  gap_sum (run_sorted cards wild_rank).

Definition remaining_wilds (cards : list Card) (wild_rank : Rank) : Z :=
  (wild_count cards wild_rank - internal_gap_sum cards wild_rank)%Z.

(** The lowest and highest non-wild ordinals (first and last sorted card). *)
Definition lowest_ordinal (cards : list Card) (wild_rank : Rank) : Z :=
  match run_sorted cards wild_rank with
  | [] => 0%Z
  | first :: _ => Z.of_nat (fst first)
  end.

Definition highest_ordinal (cards : list Card) (wild_rank : Rank) : Z :=
  match run_sorted cards wild_rank with
  | [] => 0%Z
  | first :: _ => Z.of_nat (fst (last (run_sorted cards wild_rank) first))
  end.

(** The preconditions shared by the run claims. *)
Definition run_shape (cards : list Card) (wild_rank : Rank) : Prop :=
  3 <= length cards /\
  non_wilds_of cards wild_rank <> [] /\
  (forall c d, In c (non_wilds_of cards wild_rank) ->
               In d (non_wilds_of cards wild_rank) -> suit c = suit d) /\
  NoDup (map rank (non_wilds_of cards wild_rank)).

(** A meld accepted by [validate_all_melds]: a book or a run. *)
Definition meld_valid (cards : list Card) (wild_rank : Rank) : bool :=
  is_valid_book cards wild_rank || run_ok cards wild_rank.

(** A partition of a hand: every card object of the hand in exactly one
    meld, every meld valid. *)
Definition is_partition (hand : list Obj) (melds : list Meld) (wild_rank : Rank) : Prop :=
  Permutation (concat melds) hand /\
  Forall (fun m => meld_valid (cards_of m) wild_rank = true) melds.

(** A meld that [validate_all_melds] reports. *)
Definition offends (meld : list Card) (wild_rank : Rank) : bool :=
  (length meld <? 3) || negb (is_valid_book meld wild_rank || run_ok meld wild_rank).

(** A candidate meld of a hand: card objects of the hand, none twice,
    forming a valid book or run. *)
Definition well_formed_meld (hand : list Obj) (wild_rank : Rank) (m : Meld) : Prop :=
  incl m hand /\ NoDup m /\ meld_valid (cards_of m) wild_rank = true.

Definition offense_message (i : nat) (meld : list Card) : string :=
  if length meld <? 3 then too_small_message i meld else neither_message i.

(** A decision procedure for [Permutation] on card objects. *)
Definition obj_eqb (a b : Obj) : bool := Nat.eqb (fst a) (fst b) && card_eqb (snd a) (snd b).

Fixpoint remove_obj (x : Obj) (l : list Obj) : list Obj :=
  match l with
  | [] => []
  | y :: l' => if obj_eqb x y then l' else y :: remove_obj x l'
  end.

Fixpoint perm_b (l1 l2 : list Obj) : bool :=
  match l1 with
  | [] => match l2 with [] => true | _ => false end
  | x :: l1' => existsb (obj_eqb x) l2 && perm_b l1' (remove_obj x l2)
  end.

(** All the cards of a game: the draw pile, the discard pile and the
    players' hands. *)
Definition cards_in_play (st : GameEngine.GameState) : list Card :=
  GameEngine.cards (GameEngine.deck st) ++ GameEngine.discard_pile (GameEngine.deck st) ++
  concat (map GameEngine.hand (GameEngine.players st)).

End Spec.

(* ------------------------------------------------------------------ *)
(** ** Sample hands *)

Module Samples.
Import MeldValidator MeldFinder.

(** Queen and king of hearts with a joker, wild rank 3. *)
Definition run_QK_joker : list Card := [mkCard RQ HEARTS; mkCard RK HEARTS; create_joker].

(** Section 8, scenarios 3 and 4. *)
Definition run_5_3_7 : list Card := [mkCard R5 SPADES; mkCard R3 SPADES; mkCard R7 SPADES].
Definition run_5_3_9 : list Card := [mkCard R5 HEARTS; mkCard R3 HEARTS; mkCard R9 HEARTS].

(** Nine cards, wild rank 9: three real cards of different ranks and suits,
    five natural nines and a joker. *)
Definition hand_greedy : list Obj :=
  hand_objects [mkCard R4 HEARTS; mkCard R7 SPADES; mkCard RQ DIAMONDS;
                mkCard R9 HEARTS; mkCard R9 SPADES; mkCard R9 CLUBS;
                mkCard R9 DIAMONDS; mkCard R9 STARS; create_joker].

Definition partition_greedy : list Meld :=
  [[(0, mkCard R4 HEARTS); (3, mkCard R9 HEARTS); (4, mkCard R9 SPADES)];
   [(1, mkCard R7 SPADES); (5, mkCard R9 CLUBS); (6, mkCard R9 DIAMONDS)];
   [(2, mkCard RQ DIAMONDS); (7, mkCard R9 STARS); (8, create_joker)]].

(** The hand of [test_can_go_out_true], wild rank 7. *)
Definition cards_go_out : list Card :=
  [mkCard R7 HEARTS; mkCard R7 SPADES; mkCard R7 CLUBS;
   mkCard R5 DIAMONDS; mkCard R6 DIAMONDS; mkCard R8 DIAMONDS].

Definition melds_go_out : list Meld :=
  [[(3, mkCard R5 DIAMONDS); (0, mkCard R7 HEARTS); (1, mkCard R7 SPADES)];
   [(4, mkCard R6 DIAMONDS); (5, mkCard R8 DIAMONDS); (2, mkCard R7 CLUBS)]].

(** A one-player game in round 5 (wild rank 7) whose player holds
    [cards_go_out]. *)
Definition state_go_out : GameEngine.GameState :=
  GameEngine.mkGameState 5 [GameEngine.mkPlayer "A" cards_go_out 0 false] GameEngine.new_deck 0
    false false.

(** A one-player game in round 1 (wild rank 3) whose player holds the seven
    of clubs twice and the seven of spades once, and two melds that use the
    seven of spades twice and the seven of clubs once. *)
Definition state_set_check : GameEngine.GameState :=
  GameEngine.mkGameState 1
    [GameEngine.mkPlayer "B"
       [mkCard R7 SPADES; mkCard R8 SPADES; mkCard R9 SPADES;
        mkCard R7 HEARTS; mkCard R7 CLUBS; mkCard R7 CLUBS] 0 false]
    GameEngine.new_deck 0 false false.

Definition melds_set_check : list (list Card) :=
  [[mkCard R7 SPADES; mkCard R8 SPADES; mkCard R9 SPADES];
   [mkCard R7 SPADES; mkCard R7 HEARTS; mkCard R7 CLUBS]].

(** Two sevens and a joker, wild rank 3. *)
Definition hand_two_sevens : list Obj :=
  hand_objects [mkCard R7 HEARTS; mkCard R7 SPADES; create_joker].

(** A seven and three threes (two of them the three of spades), wild rank 3. *)
Definition hand_two_copies : list Obj :=
  hand_objects [mkCard R7 HEARTS; mkCard R3 SPADES; mkCard R3 SPADES; mkCard R3 CLUBS].

Definition meld_one_copy : Meld :=
  [(0, mkCard R7 HEARTS); (1, mkCard R3 SPADES); (3, mkCard R3 CLUBS)].

Definition meld_two_copies : Meld :=
  [(0, mkCard R7 HEARTS); (1, mkCard R3 SPADES); (2, mkCard R3 SPADES); (3, mkCard R3 CLUBS)].

End Samples.

(* ================================================================== *)
(** * Proofs *)

Import MeldValidator MeldFinder Spec.

(* ------------------------------------------------------------------ *)
(** ** Equality tests *)

Lemma rank_eqb_spec (a b : Rank) : rank_eqb a b = true <-> a = b.
Proof. unfold rank_eqb; destruct (Rank_eq_dec a b); split; congruence. Qed.

Lemma suit_eqb_spec (a b : Suit) : suit_eqb a b = true <-> a = b.
Proof. unfold suit_eqb; destruct (Suit_eq_dec a b); split; congruence. Qed.

Lemma rank_eqb_refl (a : Rank) : rank_eqb a a = true.
Proof. apply rank_eqb_spec; reflexivity. Qed.

Lemma obj_eqb_spec (a b : Obj) : obj_eqb a b = true <-> a = b.
Proof.
  destruct a as [i [r s]], b as [j [r' s']]; unfold obj_eqb, card_eqb; simpl.
  rewrite !andb_true_iff, Nat.eqb_eq, rank_eqb_spec, suit_eqb_spec.
  split; [intros [? [? ?]]; subst; reflexivity | intros H; inversion H; auto].
Qed.

Lemma remove_obj_perm (x : Obj) (l : list Obj) :
  In x l -> Permutation l (x :: remove_obj x l).
Proof.
  induction l as [|y l IH]; simpl; [tauto|].
  intros [-> | Hin].
  - rewrite (proj2 (obj_eqb_spec x x) eq_refl); reflexivity.
  - destruct (obj_eqb x y) eqn:E.
    + apply obj_eqb_spec in E; subst; reflexivity.
    + rewrite (IH Hin) at 1. apply perm_swap.
Qed.

Lemma perm_b_sound (l1 l2 : list Obj) : perm_b l1 l2 = true -> Permutation l1 l2.
Proof.
  revert l2; induction l1 as [|x l1 IH]; intros l2 H; simpl in H.
  - destruct l2; [constructor | discriminate].
  - apply andb_true_iff in H as [Hx Hp].
    apply existsb_exists in Hx as [y [Hy Hxy]]; apply obj_eqb_spec in Hxy; subst y.
    symmetry; rewrite (remove_obj_perm x l2 Hy).
    apply perm_skip; symmetry; apply IH; exact Hp.
Qed.

(* ------------------------------------------------------------------ *)
(** ** Wild cards and ordinals *)

Lemma joker_is_wild (s : Suit) (w : Rank) : is_wild (mkCard Joker s) w = true.
Proof. unfold is_wild; simpl; rewrite rank_eqb_refl, orb_true_r; reflexivity. Qed.

Lemma non_wild_not_joker (c : Card) (w : Rank) : is_wild c w = false -> rank c <> Joker.
Proof.
  unfold is_wild; intros H E; rewrite E, rank_eqb_refl, orb_true_r in H; discriminate.
Qed.

Lemma in_non_wilds (c : Card) (cards : list Card) (w : Rank) :
  In c (non_wilds_of cards w) <-> In c cards /\ is_wild c w = false.
Proof. unfold non_wilds_of; rewrite filter_In, negb_true_iff; tauto. Qed.

Lemma RANK_VALUES_some (r : Rank) : r <> Joker -> exists k, RANK_VALUES r = Some k /\ k <= 10.
Proof.
  destruct r; intros H; try (exfalso; apply H; reflexivity);
    (eexists; split; [reflexivity | simpl; lia]).
Qed.

Lemma RANK_VALUES_le (r : Rank) (k : nat) : RANK_VALUES r = Some k -> k <= 10.
Proof. destruct r; cbv; intros H; inversion H; lia. Qed.

Lemma RANK_VALUES_inj (r r' : Rank) (k : nat) :
  RANK_VALUES r = Some k -> RANK_VALUES r' = Some k -> r = r'.
Proof. destruct r, r'; cbv; intros H H'; congruence. Qed.

Lemma key_by_rank_some (l : list Card) :
  (forall c, In c l -> rank c <> Joker) ->
  exists ks, key_by_rank l = Some ks /\ map snd ks = l /\
             Forall (fun kc => RANK_VALUES (rank (snd kc)) = Some (fst kc)) ks.
Proof.
  induction l as [|c l IH]; intros H; simpl.
  - exists []; repeat constructor.
  - destruct (RANK_VALUES_some (rank c)) as [k [Hk _]]; [apply H; now left|].
    destruct IH as [ks [Hks [Hm Hf]]]; [intros d Hd; apply H; now right|].
    rewrite Hk, Hks; exists ((k, c) :: ks); simpl; rewrite Hm; repeat constructor; auto.
Qed.

Lemma non_wilds_keyed (cards : list Card) (w : Rank) :
  exists ks, key_by_rank (non_wilds_of cards w) = Some ks /\
             map snd ks = non_wilds_of cards w /\
             Forall (fun kc => RANK_VALUES (rank (snd kc)) = Some (fst kc)) ks.
Proof.
  apply key_by_rank_some; intros c Hc; apply in_non_wilds in Hc as [_ Hc].
  exact (non_wild_not_joker c w Hc).
Qed.

(** The dictionary lookup of [is_valid_run] never raises. *)
Lemma is_valid_run_some (cards : list Card) (w : Rank) :
  exists b, is_valid_run cards w = Some b.
Proof.
  unfold is_valid_run.
  destruct (length cards <? 3); [eauto|].
  destruct (non_wilds_of cards w) as [|c0 rest] eqn:E; [eauto|].
  destruct (negb _); [eauto|].
  destruct (non_wilds_keyed cards w) as [ks [Hks _]]; rewrite E in Hks; rewrite Hks; eauto.
Qed.

Lemma run_ok_iff (cards : list Card) (w : Rank) :
  run_ok cards w = true <-> is_valid_run cards w = Some true.
Proof.
  unfold run_ok; destruct (is_valid_run cards w) as [[|]|]; split; congruence.
Qed.

(* ------------------------------------------------------------------ *)
(** ** Card values *)

Lemma card_value_fold (w : Rank) (l : list Card) (acc : option Z) :
  fold_left (fun acc card => total <- acc ;; v <- card_value card w ;; Some (total + v)%Z) l acc =
  fold_left
    (fun acc card =>
       total <- acc ;;
       if is_wild card w then Some (total + 20)%Z
       else if existsb (rank_eqb (rank card)) [RJ; RQ; RK] then Some (total + 10)%Z
       else v <- int_of_rank (rank card) ;; Some (total + v)%Z) l acc.
Proof.
  revert acc; induction l as [|c l IH]; intros acc; simpl; [reflexivity|].
  rewrite <- IH; f_equal.
  destruct acc as [t|]; simpl; [|reflexivity].
  destruct c as [r s]; unfold card_value; destruct (is_wild _ w); [reflexivity|].
  destruct r; reflexivity.
Qed.

(* ------------------------------------------------------------------ *)
(** ** validate_all_melds *)

Lemma validate_from_step (i : nat) (x : list Card) (rest : list (list Card)) (w : Rank) :
  offends x w = false -> validate_from i (x :: rest) w = validate_from (S i) rest w.
Proof.
  unfold offends; intros H; apply orb_false_iff in H as [Hlen Hok].
  simpl; rewrite Hlen.
  destruct (is_valid_run_some x w) as [b Hb]; rewrite Hb.
  unfold run_ok in Hok; rewrite Hb in Hok; simpl.
  destruct (is_valid_book x w), b; simpl in *; congruence.
Qed.

Lemma validate_from_clean (i : nat) (ms : list (list Card)) (w : Rank) :
  Forall (fun x => offends x w = false) ms ->
  validate_from i ms w = Some (mkValidationResult true None).
Proof.
  intros H; revert i; induction H as [|x ms Hx Hms IH]; intros i; [reflexivity|].
  rewrite validate_from_step by exact Hx; apply IH.
Qed.

Lemma validate_from_first (i : nat) (pre : list (list Card)) (m : list Card)
    (post : list (list Card)) (w : Rank) :
  Forall (fun x => offends x w = false) pre -> offends m w = true ->
  validate_from i (pre ++ m :: post) w =
  Some (mkValidationResult false (Some (offense_message (i + length pre) m))).
Proof.
  intros Hpre Hm; revert i; induction Hpre as [|x pre Hx Hpre IH]; intros i.
  - simpl; rewrite Nat.add_0_r; unfold offense_message, offends in *.
    destruct (length m <? 3) eqn:Hlen; [reflexivity|]; simpl in Hm.
    destruct (is_valid_run_some m w) as [b Hb]; rewrite Hb.
    unfold run_ok in Hm; rewrite Hb in Hm.
    destruct (is_valid_book m w), b; simpl in *; congruence.
  - change ((x :: pre) ++ m :: post) with (x :: (pre ++ m :: post)).
    rewrite validate_from_step by exact Hx; rewrite IH; simpl length.
    replace (i + S (length pre)) with (S i + length pre) by lia; reflexivity.
Qed.

Lemma validate_from_some (i : nat) (ms : list (list Card)) (w : Rank) :
  exists r, validate_from i ms w = Some r.
Proof.
  revert i; induction ms as [|m ms IH]; intros i; simpl; [eauto|].
  destruct (length m <? 3); [eauto|].
  destruct (is_valid_run_some m w) as [b Hb]; rewrite Hb.
  destruct (negb _); [eauto | apply IH].
Qed.

(* ------------------------------------------------------------------ *)
(** ** Claims about the validator, the wild rule and card values *)

(** C6: [validate_all_melds] accepts the empty list; otherwise it reports
    only the first offending meld, by its 1-based index and, for a meld of
    fewer than 3 cards, its size, or else as neither a book nor a run; with
    no offending meld the result is valid with no message. *)
Theorem validate_all_melds_first_failure :
  (forall w, validate_all_melds [] w = Some (mkValidationResult true None)) /\
  (forall w pre m post,
     Forall (fun x => offends x w = false) pre -> offends m w = true ->
     validate_all_melds (pre ++ m :: post) w =
     Some (mkValidationResult false (Some (offense_message (length pre) m)))) /\
  (forall w ms,
     Forall (fun x => offends x w = false) ms ->
     validate_all_melds ms w = Some (mkValidationResult true None)) /\
  (forall i m, length m < 3 -> offense_message i m =
     ("Group " ++ string_of_nat (i + 1) ++ " has only " ++ string_of_nat (length m)
      ++ " cards (need 3+)")%string) /\
  (forall i m, 3 <= length m -> offense_message i m =
     ("Group " ++ string_of_nat (i + 1) ++ " is neither a valid book nor run")%string).
Proof.
  split; [reflexivity|]. split; [|split; [|split]].
  - intros w pre m post Hpre Hm.
    assert (Hne : pre ++ m :: post <> []) by (destruct pre; discriminate).
    unfold validate_all_melds; destruct (pre ++ m :: post) eqn:E; [contradiction|].
    rewrite <- E; apply (validate_from_first 0 pre m post w Hpre Hm).
  - intros w ms Hms; unfold validate_all_melds; destruct ms; [reflexivity|].
    apply validate_from_clean, Hms.
  - intros i m Hm; unfold offense_message; apply Nat.ltb_lt in Hm; rewrite Hm; reflexivity.
  - intros i m Hm; unfold offense_message.
    destruct (Nat.ltb_spec (length m) 3); [lia | reflexivity].
Qed.

(** C7: [get_wild_card] returns, for rounds 1 to 11, the rank at ordinal
    [n - 1] of [3 4 5 6 7 8 9 10 J Q K], and raises a [ValueError] for
    every other round number. *)
Theorem get_wild_card_rounds : forall n : Z,
  ((1 <= n <= 11)%Z ->
     exists r, get_wild_card n = Ok r /\
               nth_error RANK_ORDER (Z.to_nat (n - 1)) = Some r /\
               RANK_VALUES r = Some (Z.to_nat (n - 1))) /\
  ((n < 1 \/ 11 < n)%Z -> exists msg, get_wild_card n = Err (ValueError msg)).
Proof.
  intros n; split; intros H.
  - assert (n = 1 \/ n = 2 \/ n = 3 \/ n = 4 \/ n = 5 \/ n = 6 \/ n = 7 \/ n = 8 \/
            n = 9 \/ n = 10 \/ n = 11)%Z as Hn by lia.
    repeat destruct Hn as [-> | Hn]; try subst n;
      (eexists; split; [reflexivity | split; reflexivity]).
  - unfold get_wild_card.
    destruct (Z.ltb_spec n 1), (Z.ltb_spec 11 n); try lia; simpl; eexists; reflexivity.
Qed.

(** C8: a wild card (its rank is the wild rank, or it is a joker) is worth
    20, a non-wild J, Q or K 10, any other card its face value 3 to 10
    (ordinal plus 3); a wild J, Q or K is worth 20; the player's scorer and
    the solver's hand value agree. *)
Theorem card_value_mapping :
  (forall c w, is_wild c w = true -> card_value c w = Some 20%Z) /\
  (forall c w, is_wild c w = false -> In (rank c) [RJ; RQ; RK] -> card_value c w = Some 10%Z) /\
  (forall c w, is_wild c w = false -> ~ In (rank c) [RJ; RQ; RK] ->
     exists k, RANK_VALUES (rank c) = Some k /\ k <= 7 /\
               card_value c w = Some (Z.of_nat k + 3)%Z) /\
  (forall s w, In w [RJ; RQ; RK] -> card_value (mkCard w s) w = Some 20%Z) /\
  (forall p w, GameEngine.calculate_hand_value p w =
               MeldFinder.calculate_hand_value (GameEngine.hand p) w).
Proof.
  split; [|split; [|split; [|split]]].
  - intros c w H; unfold card_value; rewrite H; reflexivity.
  - intros [r s] w H Hin; unfold card_value; rewrite H; simpl in Hin.
    destruct Hin as [<- | [<- | [<- | []]]]; reflexivity.
  - intros [r s] w H Hin; unfold card_value; rewrite H; simpl in Hin |- *.
    destruct r; try (exfalso; apply Hin; tauto);
      try (rewrite joker_is_wild in H; discriminate);
      (eexists; split; [reflexivity | split; [lia | reflexivity]]).
  - intros s w _; unfold card_value, is_wild; simpl; rewrite rank_eqb_refl; reflexivity.
  - intros p w; unfold GameEngine.calculate_hand_value, MeldFinder.calculate_hand_value.
    symmetry; apply card_value_fold.
Qed.

(** C9: on the empty hand the search returns no melds and 0 points, so
    [can_go_out] answers true with the empty meld list. *)
Theorem empty_hand_goes_out : forall w,
  find_best_meld_combination (hand_objects []) w = Some ([], 0%Z) /\
  can_go_out (hand_objects []) w = Some (true, Some []).
Proof. intros w; split; reflexivity. Qed.

(** C10: a joker is wild for every wild rank, so every non-wild card has
    an ordinal; hence [is_valid_run] (and [validate_all_melds], which calls
    it) never raises, and [is_valid_book] does no lookup at all. *)
Theorem validators_never_raise :
  (forall s w, is_wild (mkCard Joker s) w = true) /\
  (forall cards w c, In c (non_wilds_of cards w) -> exists k, RANK_VALUES (rank c) = Some k) /\
  (forall cards w, exists b, is_valid_run cards w = Some b) /\
  (forall melds w, exists r, validate_all_melds melds w = Some r).
Proof.
  split; [exact joker_is_wild|]. split; [|split].
  - intros cards w c Hc; apply in_non_wilds in Hc as [_ Hc].
    destruct (RANK_VALUES_some (rank c) (non_wild_not_joker c w Hc)) as [k [Hk _]]; eauto.
  - exact is_valid_run_some.
  - intros melds w; unfold validate_all_melds; destruct melds; [eauto | apply validate_from_some].
Qed.

(* ------------------------------------------------------------------ *)
(** ** Concrete facts *)

Ltac solve_run_shape :=
  unfold run_shape; split; [simpl; lia|];
  split; [vm_compute; discriminate|];
  split; [ intros ? ? Hc Hd; vm_compute in Hc, Hd;
           repeat destruct Hc as [<- | Hc]; try contradiction;
           repeat destruct Hd as [<- | Hd]; try contradiction; reflexivity
         | vm_compute; repeat constructor; simpl; intuition discriminate ].

Ltac solve_in := repeat (first [left; reflexivity | right]).

Lemma is_partition_by_computation (hand : list Obj) (melds : list Meld) (w : Rank) :
  perm_b (concat melds) hand = true ->
  forallb (fun m => meld_valid (cards_of m) w) melds = true ->
  is_partition hand melds w.
Proof.
  intros Hp Hv; split; [apply perm_b_sound, Hp|].
  apply Forall_forall; intros m Hm; rewrite forallb_forall in Hv; apply Hv, Hm.
Qed.

(** C1 (counterexample): [Q♥ K♥ joker] with wild rank 3 meets every run
    precondition, its one remaining wild fits the 9 places of slack below
    the queen, and still [is_valid_run] rejects it. *)
Theorem run_slack_rule_counterexample :
  run_shape Samples.run_QK_joker R3 /\
  (internal_gap_sum Samples.run_QK_joker R3 <= wild_count Samples.run_QK_joker R3)%Z /\
  Z.of_nat (length Samples.run_QK_joker) =
    (highest_ordinal Samples.run_QK_joker R3 - lowest_ordinal Samples.run_QK_joker R3 + 1
     + remaining_wilds Samples.run_QK_joker R3)%Z /\
  remaining_wilds Samples.run_QK_joker R3 = 1%Z /\
  lowest_ordinal Samples.run_QK_joker R3 = 9%Z /\
  highest_ordinal Samples.run_QK_joker R3 = 10%Z /\
  is_valid_run Samples.run_QK_joker R3 = Some false.
Proof.
  split; [solve_run_shape|].
  repeat split; vm_compute; try reflexivity; discriminate.
Qed.

(** C2 (counterexample): a nine-card hand that splits into three valid
    books (one real card and two wilds each) for which [can_go_out]
    answers false: every greedy pass spends all remaining wilds on its
    second meld. *)
Theorem can_go_out_misses_partition :
  length Samples.hand_greedy <= 13 /\
  is_partition Samples.hand_greedy Samples.partition_greedy R9 /\
  can_go_out Samples.hand_greedy R9 = Some (false, None).
Proof.
  split; [simpl; lia|]. split; [|vm_compute; reflexivity].
  apply is_partition_by_computation; vm_compute; reflexivity.
Qed.

(** C3 (code bug): two sevens and a joker form a valid book, the whole
    hand, yet [find_all_books] and [find_all_melds] produce nothing: the
    first pass only takes 3 or more cards of a rank, the second only one. *)
Theorem find_all_books_misses_two_real_cards :
  is_valid_book (cards_of Samples.hand_two_sevens) R3 = true /\
  is_partition Samples.hand_two_sevens [Samples.hand_two_sevens] R3 /\
  find_all_books Samples.hand_two_sevens R3 = [] /\
  find_all_melds Samples.hand_two_sevens R3 = Some [].
Proof.
  split; [vm_compute; reflexivity|]. split; [|split; vm_compute; reflexivity].
  apply is_partition_by_computation; vm_compute; reflexivity.
Qed.

(** C4 (code bug): the frozenset key of deduplication forgets
    multiplicities: [7H 3S 3C] and [7H 3S 3S 3C] are different multisets
    with the same key, only the first is kept, and the hand that the
    second covers is reported unable to go out. *)
Theorem dedup_collapses_copies :
  frozenset_eqb (cards_to_frozenset Samples.meld_one_copy)
                (cards_to_frozenset Samples.meld_two_copies) = true /\
  ~ Permutation (cards_of Samples.meld_one_copy) (cards_of Samples.meld_two_copies) /\
  remove_duplicate_melds [Samples.meld_one_copy; Samples.meld_two_copies] =
    [Samples.meld_one_copy] /\
  (exists all_melds,
     find_all_melds Samples.hand_two_copies R3 = Some all_melds /\
     In Samples.meld_one_copy all_melds /\ In Samples.meld_two_copies all_melds /\
     In Samples.meld_one_copy (remove_duplicate_melds all_melds) /\
     ~ In Samples.meld_two_copies (remove_duplicate_melds all_melds)) /\
  is_partition Samples.hand_two_copies [Samples.meld_two_copies] R3 /\
  can_go_out Samples.hand_two_copies R3 = Some (false, None).
Proof.
  split; [vm_compute; reflexivity|].
  split; [intros H; apply Permutation_length in H; discriminate|].
  split; [vm_compute; reflexivity|].
  split; [|split; [apply is_partition_by_computation; vm_compute; reflexivity
                  | vm_compute; reflexivity]].
  eexists; split; [vm_compute; reflexivity|].
  split; [solve_in|]. split; [solve_in|]. split; [vm_compute; solve_in|].
  vm_compute; intros H; repeat destruct H as [H | H]; try discriminate; contradiction.
Qed.

(* ------------------------------------------------------------------ *)
(** ** The sort of [is_valid_run] *)

Lemma insert_keyed_perm (x : nat * Card) (l : list (nat * Card)) :
  Permutation (insert_keyed x l) (x :: l).
Proof.
  induction l as [|y l IH]; simpl; [reflexivity|].
  destruct (fst x <=? fst y); [reflexivity|].
  rewrite IH; apply perm_swap.
Qed.

Lemma sort_keyed_perm (l : list (nat * Card)) : Permutation (sort_keyed l) l.
Proof.
  induction l as [|x l IH]; simpl; [reflexivity|].
  rewrite insert_keyed_perm; apply perm_skip, IH.
Qed.

Lemma insert_keyed_sorted (x : nat * Card) (l : list (nat * Card)) :
  Sorted (fun a b => fst a <= fst b) l ->
  Sorted (fun a b => fst a <= fst b) (insert_keyed x l).
Proof.
  induction 1 as [|y l Hl IH Hhd]; simpl; [repeat constructor|].
  destruct (Nat.leb_spec (fst x) (fst y)).
  - constructor; [constructor; assumption | constructor; assumption].
  - constructor; [exact IH|].
    destruct l as [|z l]; simpl; [constructor; lia|].
    inversion Hhd; subst.
    destruct (fst x <=? fst z); constructor; lia.
Qed.

Lemma sort_keyed_sorted (l : list (nat * Card)) :
  Sorted (fun a b => fst a <= fst b) (sort_keyed l).
Proof. induction l; simpl; [constructor | apply insert_keyed_sorted; assumption]. Qed.

(** Facts about [run_sorted]: a permutation of the keyed non-wild cards,
    sorted by ordinal, each key the card's ordinal. *)
Lemma run_sorted_facts (cards : list Card) (w : Rank) :
  Permutation (map snd (run_sorted cards w)) (non_wilds_of cards w) /\
  Sorted (fun a b => fst a <= fst b) (run_sorted cards w) /\
  Forall (fun kc => RANK_VALUES (rank (snd kc)) = Some (fst kc)) (run_sorted cards w).
Proof.
  destruct (non_wilds_keyed cards w) as [ks [Hks [Hm Hf]]].
  unfold run_sorted; rewrite Hks; split; [|split].
  - rewrite <- Hm; apply Permutation_map, sort_keyed_perm.
  - apply sort_keyed_sorted.
  - apply Forall_forall; intros kc Hkc.
    apply (Permutation_in _ (sort_keyed_perm ks)) in Hkc.
    rewrite Forall_forall in Hf; apply Hf, Hkc.
Qed.

Lemma ranks_distinct_nodup (seen : list Rank) (l : list (nat * Card)) :
  NoDup (map rank (map snd l)) ->
  (forall r, In r (map rank (map snd l)) -> ~ In r seen) ->
  ranks_distinct seen l = true.
Proof.
  revert seen; induction l as [|[k c] l IH]; intros seen Hnd Hdis; simpl; [reflexivity|].
  simpl in Hnd; inversion Hnd as [|? ? Hnin Hnd']; subst.
  destruct (existsb (rank_eqb (rank c)) seen) eqn:E.
  - apply existsb_exists in E as [r [Hr Heq]]; apply rank_eqb_spec in Heq; subst r.
    exfalso; apply (Hdis (rank c)); [left; reflexivity | exact Hr].
  - apply IH; [exact Hnd'|].
    intros r Hr [<- | Hs]; [contradiction | apply (Hdis r); [right; exact Hr | exact Hs]].
Qed.

Lemma last_in {A : Type} (x : A) (l : list A) (d : A) : In (last (x :: l) d) (x :: l).
Proof.
  revert x; induction l as [|y l IH]; intros x; [left; reflexivity|].
  right; apply (IH y).
Qed.

(** Under the run preconditions [is_valid_run] reaches its tail. *)
Lemma is_valid_run_shape (cards : list Card) (w : Rank) :
  run_shape cards w ->
  is_valid_run cards w = Some (run_tail cards w (non_wilds_of cards w) (run_sorted cards w)).
Proof.
  intros [Hlen [Hne [Hsuit _]]].
  unfold is_valid_run, run_sorted.
  destruct (Nat.ltb_spec (length cards) 3); [lia|].
  destruct (non_wilds_keyed cards w) as [ks [Hks _]].
  destruct (non_wilds_of cards w) as [|c0 rest] eqn:E; [contradiction|].
  replace (forallb (fun c => suit_eqb (suit c) (suit c0)) (c0 :: rest)) with true.
  - simpl negb; cbv iota. rewrite Hks; reflexivity.
  - symmetry; apply forallb_forall; intros c Hc; apply suit_eqb_spec.
    apply Hsuit; [exact Hc | left; reflexivity].
Qed.

Lemma ranks_distinct_run_sorted (cards : list Card) (w : Rank) :
  run_shape cards w -> ranks_distinct [] (run_sorted cards w) = true.
Proof.
  intros [_ [_ [_ Hnd]]]; destruct (run_sorted_facts cards w) as [Hp _].
  apply ranks_distinct_nodup; [|intros r _ []].
  apply (Permutation_NoDup (Permutation_map rank (Permutation_sym Hp))), Hnd.
Qed.

(* ------------------------------------------------------------------ *)
(** ** Claims about [is_valid_run] *)

(** C5: under the run preconditions, [is_valid_run] is false when there
    are fewer wilds than the internal gap sum, and false unless the number
    of cards is the span of the non-wild cards plus the remaining wilds;
    [5S 3S 7S] is a run and [5H 3H 9H] is not (wild rank 3). *)
Theorem run_gap_and_length_checks :
  (forall cards w, run_shape cards w ->
     ((wild_count cards w < internal_gap_sum cards w)%Z ->
        is_valid_run cards w = Some false) /\
     (Z.of_nat (length cards) <>
        (highest_ordinal cards w - lowest_ordinal cards w + 1 + remaining_wilds cards w)%Z ->
        is_valid_run cards w = Some false)) /\
  is_valid_run Samples.run_5_3_7 R3 = Some true /\
  run_shape Samples.run_5_3_9 R3 /\
  (wild_count Samples.run_5_3_9 R3 < internal_gap_sum Samples.run_5_3_9 R3)%Z /\
  is_valid_run Samples.run_5_3_9 R3 = Some false.
Proof.
  split; [|split; [vm_compute; reflexivity | split; [solve_run_shape | split; vm_compute; reflexivity]]].
  intros cards w Hs; rewrite (is_valid_run_shape _ _ Hs); unfold run_tail.
  rewrite (ranks_distinct_run_sorted _ _ Hs); simpl negb; cbv iota.
  unfold highest_ordinal, lowest_ordinal, remaining_wilds, internal_gap_sum, wild_count.
  set (wc := (Z.of_nat (length cards) - Z.of_nat (length (non_wilds_of cards w)))%Z).
  destruct (run_sorted cards w) as [|first rest].
  - split; intros _; destruct (wc <? gap_sum [])%Z; reflexivity.
  - split; intros H; destruct (Z.ltb_spec wc (gap_sum (first :: rest))); try reflexivity.
    + lia.
    + cbv zeta; rewrite (proj2 (Z.eqb_neq _ _) H); reflexivity.
Qed.

Lemma run_sorted_nonempty (cards : list Card) (w : Rank) :
  run_shape cards w -> run_sorted cards w <> [].
Proof.
  intros [_ [Hne _]] E; destruct (run_sorted_facts cards w) as [Hp _].
  rewrite E in Hp; apply Permutation_nil in Hp; auto.
Qed.

Lemma highest_is_king (cards : list Card) (w : Rank) :
  run_sorted cards w <> [] -> highest_ordinal cards w = 10%Z ->
  existsb (fun c => rank_eqb (rank c) RK) cards = true.
Proof.
  destruct (run_sorted_facts cards w) as [Hp [_ Hf]].
  unfold highest_ordinal; destruct (run_sorted cards w) as [|first rest]; [congruence|].
  intros _ H10.
  pose proof (last_in first rest first) as Hin.
  set (kc := last (first :: rest) first) in *.
  assert (Hk : fst kc = 10) by lia.
  rewrite Forall_forall in Hf; specialize (Hf kc Hin).
  rewrite Hk in Hf; assert (Hr : rank (snd kc) = RK) by (apply (RANK_VALUES_inj _ _ 10 Hf); reflexivity).
  apply existsb_exists; exists (snd kc); split; [|rewrite Hr; apply rank_eqb_refl].
  apply (in_map snd) in Hin; apply (Permutation_in _ Hp) in Hin.
  apply in_non_wilds in Hin; tauto.
Qed.

(** C1 (amended): under the run preconditions (at least 3 cards, a
    non-wild card, one suit, no repeated rank, enough wilds for the
    interior gaps, length equal to span plus remaining wilds), a run with
    no remaining wild is valid; with remaining wilds it is valid exactly
    when they fit the slack [lowest + (10 - highest)], the non-wild span
    ends neither at K (ordinal 10) nor at 3 (ordinal 0), and it is not the
    case that 3s are wild, the lowest non-wild card is a 4 and the cards
    hold a 3. *)
Theorem run_boundary_rule (cards : list Card) (w : Rank)
    (Hs : run_shape cards w)
    (Hgap : (internal_gap_sum cards w <= wild_count cards w)%Z)
    (Hlen : Z.of_nat (length cards) =
              (highest_ordinal cards w - lowest_ordinal cards w + 1
               + remaining_wilds cards w)%Z) :
  is_valid_run cards w = Some true <->
  (remaining_wilds cards w = 0 \/
   (remaining_wilds cards w <= lowest_ordinal cards w + (10 - highest_ordinal cards w) /\
    highest_ordinal cards w <> 10 /\ lowest_ordinal cards w <> 0 /\
    ~ (w = R3 /\ lowest_ordinal cards w = 1 /\ exists c, In c cards /\ rank c = R3)))%Z.
Proof.
  pose proof (highest_is_king cards w (run_sorted_nonempty cards w Hs)) as HK.
  pose proof (run_sorted_nonempty cards w Hs) as Hne.
  rewrite (is_valid_run_shape _ _ Hs); unfold run_tail.
  rewrite (ranks_distinct_run_sorted _ _ Hs); simpl negb; cbv iota.
  unfold highest_ordinal, lowest_ordinal, remaining_wilds, internal_gap_sum, wild_count in *.
  set (wc := (Z.of_nat (length cards) - Z.of_nat (length (non_wilds_of cards w)))%Z) in *.
  destruct (run_sorted cards w) as [|first rest]; [congruence|].
  set (lo := Z.of_nat (fst first)) in *.
  set (hi := Z.of_nat (fst (last (first :: rest) first))) in *.
  set (rem := (wc - gap_sum (first :: rest))%Z) in *.
  destruct (Z.ltb_spec wc (gap_sum (first :: rest))); [lia|].
  cbv zeta; fold lo hi; fold rem.
  rewrite (proj2 (Z.eqb_eq _ _) Hlen); simpl negb; cbv iota.
  destruct (Z.ltb_spec 0 rem) as [Hpos | Hz].
  2: { split; [intros _; left; lia | reflexivity]. }
  destruct (Z.eqb_spec hi 10) as [Hhi | Hhi].
  { rewrite (HK Hhi); simpl.
    split; [discriminate | intros [Hr | [_ [Hh _]]]; [lia | contradiction]]. }
  rewrite andb_false_r.
  destruct (Z.eqb_spec lo 0) as [Hlo | Hlo].
  { split; [discriminate | intros [Hr | [_ [_ [Hl _]]]]; [lia | contradiction]]. }
  assert (Hstart :
    (if rank_eqb w R3 then existsb (fun c => rank_eqb (rank c) R3) cards && (lo =? 1)%Z
     else false) = true <->
    (w = R3 /\ lo = 1 /\ exists c, In c cards /\ rank c = R3)%Z).
  { destruct (rank_eqb w R3) eqn:Ew.
    - apply rank_eqb_spec in Ew; rewrite andb_true_iff, Z.eqb_eq, existsb_exists.
      split; [intros [[c [Hc Hr]] H1]; apply rank_eqb_spec in Hr; eauto
             | intros [_ [H1 [c [Hc Hr]]]]; split; [exists c; split; [exact Hc|] | exact H1]].
      apply rank_eqb_spec, Hr.
    - split; [discriminate | intros [Hw _]; subst w; rewrite rank_eqb_refl in Ew; discriminate]. }
  destruct (if rank_eqb w R3 then _ else false) eqn:E3.
  { split; [discriminate | intros [Hr | [_ [_ [_ Hn]]]]; [lia | exfalso; apply Hn, Hstart; reflexivity]]. }
  destruct (Z.ltb_spec (lo + (10 - hi)) rem).
  - split; [discriminate | intros [Hr | [Hle _]]; lia].
  - split; [intros _; right; repeat split; auto; intros Hn; apply Hstart in Hn; congruence
           | reflexivity].
Qed.

(** A witness for [run_boundary_rule]: [6H 7H joker] with wild rank 3. *)
Lemma run_boundary_rule_witness :
  run_shape [mkCard R6 HEARTS; mkCard R7 HEARTS; create_joker] R3 /\
  is_valid_run [mkCard R6 HEARTS; mkCard R7 HEARTS; create_joker] R3 = Some true.
Proof.
  assert (Hs : run_shape [mkCard R6 HEARTS; mkCard R7 HEARTS; create_joker] R3)
    by solve_run_shape.
  split; [exact Hs|].
  apply (run_boundary_rule _ _ Hs); [vm_compute; discriminate | vm_compute; reflexivity |].
  right; vm_compute; repeat split; try discriminate.
  intros [_ [H _]]; discriminate.
Defined.

(* ------------------------------------------------------------------ *)
(** ** Lists, combinations and identities *)

Lemma combinations_incl {A : Type} (l : list A) (k : nat) (c : list A) :
  In c (combinations l k) -> incl c l.
Proof.
  revert k c; induction l as [|x xs IH]; intros [|k] c H; simpl in H.
  - destruct H as [<- | []]; apply incl_nil_l.
  - contradiction.
  - destruct H as [<- | []]; apply incl_nil_l.
  - apply in_app_or in H as [H | H].
    + apply in_map_iff in H as [c' [<- Hc']].
      apply incl_cons; [left; reflexivity | apply incl_tl, (IH k c' Hc')].
    + apply incl_tl, (IH (S k) c H).
Qed.

Lemma combinations_nodup {A : Type} (l : list A) (k : nat) (c : list A) :
  NoDup l -> In c (combinations l k) -> NoDup c.
Proof.
  revert k c; induction l as [|x xs IH]; intros [|k] c Hnd H; simpl in H.
  - destruct H as [<- | []]; constructor.
  - contradiction.
  - destruct H as [<- | []]; constructor.
  - inversion Hnd as [|? ? Hx Hxs]; subst.
    apply in_app_or in H as [H | H].
    + apply in_map_iff in H as [c' [<- Hc']]; constructor.
      * intros Hin; apply Hx, (combinations_incl xs k c' Hc'), Hin.
      * apply (IH k c' Hxs Hc').
    + apply (IH (S k) c Hxs H).
Qed.

Lemma ids_unique (objs : list Obj) (o o' : Obj) :
  NoDup (map fst objs) -> In o objs -> In o' objs -> fst o = fst o' -> o = o'.
Proof.
  induction objs as [|a objs IH]; simpl; [tauto|].
  intros Hnd H1 H2 E; inversion Hnd as [|? ? Ha Hnd']; subst.
  destruct H1 as [<- | H1], H2 as [<- | H2]; auto.
  - exfalso; apply Ha; rewrite E; apply in_map, H2.
  - exfalso; apply Ha; rewrite <- E; apply in_map, H1.
Qed.

Lemma nodup_ids (objs m : list Obj) :
  NoDup (map fst objs) -> incl m objs -> NoDup m -> NoDup (map fst m).
Proof.
  intros Hids; induction m as [|a m IH]; intros Hinc Hnd; simpl; [constructor|].
  inversion Hnd as [|? ? Ha Hm]; subst; constructor.
  - intros Hin; apply in_map_iff in Hin as [o [E Ho]].
    assert (o = a) as -> by (apply (ids_unique objs); auto; apply Hinc; [right | left]; auto).
    contradiction.
  - apply IH; [intros x Hx; apply Hinc; right; exact Hx | exact Hm].
Qed.

Lemma obind_some {A B : Type} (m : option A) (k : A -> option B) (v : B) :
  obind m k = Some v -> exists a, m = Some a /\ k a = Some v.
Proof. destruct m as [a|]; simpl; [eauto | discriminate]. Qed.

Lemma oflat_map_in {A B : Type} (f : A -> option (list B)) (l : list A) (r : list B) (y : B) :
  oflat_map f l = Some r -> In y r -> exists x r', In x l /\ f x = Some r' /\ In y r'.
Proof.
  revert r; induction l as [|a l IH]; intros r H Hy; simpl in H.
  - inversion H; subst; contradiction.
  - apply obind_some in H as [xs [Hxs H]]; apply obind_some in H as [ys [Hys H]].
    inversion H; subst; apply in_app_or in Hy as [Hy | Hy].
    + exists a, xs; split; [left; reflexivity | auto].
    + destruct (IH ys Hys Hy) as [x [r' [Hx [Hf Hr]]]]; exists x, r'; split; [right; exact Hx | auto].
Qed.

Lemma group_append_perm {K : Type} (eqb : K -> K -> bool) (k : K) (o : Obj)
    (groups : list (K * list Obj)) :
  Permutation (concat (map snd (group_append eqb k o groups)))
              (concat (map snd groups) ++ [o]).
Proof.
  induction groups as [|[k' os] gs IH]; simpl; [reflexivity|].
  destruct (eqb k' k); simpl.
  - rewrite <- !app_assoc; apply Permutation_app_head, Permutation_app_comm.
  - rewrite IH, app_assoc; reflexivity.
Qed.

(** The dictionary of [find_all_books] / [find_all_runs] and the wild list
    together hold exactly the cards of the hand, wild ones in [wilds]. *)
Lemma split_hand_inv {K : Type} (eqb : K -> K -> bool) (key : Card -> K) (w : Rank)
    (hand : list Obj) :
  let r := split_hand eqb key hand w in
  Permutation (concat (map snd (fst r)) ++ snd r) hand /\
  (forall o, In o (concat (map snd (fst r))) -> is_wild (snd o) w = false) /\
  (forall o, In o (snd r) -> is_wild (snd o) w = true).
Proof.
  unfold split_hand.
  assert (Hgen : forall l acc prefix,
    Permutation (concat (map snd (fst acc)) ++ snd acc) prefix ->
    (forall o, In o (concat (map snd (fst acc))) -> is_wild (snd o) w = false) ->
    (forall o, In o (snd acc) -> is_wild (snd o) w = true) ->
    let r := fold_left (split_step eqb key w) l acc in
    Permutation (concat (map snd (fst r)) ++ snd r) (prefix ++ l) /\
    (forall o, In o (concat (map snd (fst r))) -> is_wild (snd o) w = false) /\
    (forall o, In o (snd r) -> is_wild (snd o) w = true)).
  { induction l as [|o l IH]; intros [groups wilds] prefix Hp Hg Hw; simpl.
    - rewrite app_nil_r; auto.
    - replace (prefix ++ o :: l) with ((prefix ++ [o]) ++ l) by (rewrite <- app_assoc; reflexivity).
      destruct (is_wild (snd o) w) eqn:Ew; apply IH; simpl in *.
      + rewrite app_assoc; apply Permutation_app_tail, Hp.
      + exact Hg.
      + intros x Hx; apply in_app_or in Hx as [Hx | [<- | []]]; auto.
      + rewrite group_append_perm, <- app_assoc, (Permutation_app_comm [o] wilds), app_assoc.
        apply Permutation_app_tail, Hp.
      + intros x Hx; apply (Permutation_in _ (group_append_perm eqb (key (snd o)) o groups)) in Hx.
        apply in_app_or in Hx as [Hx | [<- | []]]; auto.
      + exact Hw. }
  apply (Hgen hand ([], []) []); simpl; [reflexivity | tauto | tauto].
Qed.

(* ------------------------------------------------------------------ *)
(** ** Every candidate meld is well formed *)

Lemma nodup_concat_in {A : Type} (L : list (list A)) (g : list A) :
  NoDup (concat L) -> In g L -> NoDup g.
Proof.
  induction L as [|x L IH]; simpl; [tauto|].
  intros Hnd [-> | Hg].
  - apply NoDup_app_remove_r in Hnd; exact Hnd.
  - apply NoDup_app_remove_l in Hnd; apply IH; assumption.
Qed.

(** The groups and the wild list of [split_hand] on a hand without
    repeated objects. *)
Lemma split_hand_parts {K : Type} (eqb : K -> K -> bool) (key : Card -> K) (w : Rank)
    (hand : list Obj) (groups : list (K * list Obj)) (wilds : list Obj) :
  NoDup hand -> split_hand eqb key hand w = (groups, wilds) ->
  (forall k g, In (k, g) groups ->
     NoDup g /\ incl g hand /\ (forall o, In o g -> is_wild (snd o) w = false)) /\
  (NoDup wilds /\ incl wilds hand /\ (forall o, In o wilds -> is_wild (snd o) w = true)).
Proof.
  intros Hnd Es.
  destruct (split_hand_inv eqb key w hand) as [Hp [Hg Hw]]; rewrite Es in Hp, Hg, Hw; simpl in *.
  assert (Hnd' : NoDup (concat (map snd groups) ++ wilds))
    by (apply (Permutation_NoDup (Permutation_sym Hp)), Hnd).
  split.
  - intros k g Hkg.
    assert (Hin : forall o, In o g -> In o (concat (map snd groups))).
    { intros o Ho; apply in_concat; exists g; split; [apply (in_map snd _ _ Hkg) | exact Ho]. }
    split; [|split].
    + apply (nodup_concat_in (map snd groups)); [apply (NoDup_app_remove_r _ _ Hnd') |].
      apply (in_map snd _ _ Hkg).
    + intros o Ho; apply (Permutation_in _ Hp), in_or_app; left; apply Hin, Ho.
    + intros o Ho; apply Hg, Hin, Ho.
  - split; [apply (NoDup_app_remove_l _ _ Hnd') | split; [|exact Hw]].
    intros o Ho; apply (Permutation_in _ Hp), in_or_app; right; exact Ho.
Qed.

(** A combination of a group joined with a combination of the wild cards
    has no repeated object: the first part is natural, the second wild. *)
Lemma join_wf (hand : list Obj) (w : Rank) (g wilds c wc : list Obj) :
  incl g hand -> (forall o, In o g -> is_wild (snd o) w = false) ->
  incl wilds hand -> (forall o, In o wilds -> is_wild (snd o) w = true) ->
  incl c g -> NoDup c -> incl wc wilds -> NoDup wc ->
  incl (c ++ wc) hand /\ NoDup (c ++ wc).
Proof.
  intros Hg Hgn Hw Hww Hc Hcn Hwc Hwcn; split.
  - apply incl_app; [apply (incl_tran Hc Hg) | apply (incl_tran Hwc Hw)].
  - apply NoDup_app; [exact Hcn | exact Hwcn |].
    intros o Ho Ho'; pose proof (Hgn o (Hc o Ho)) as E1; pose proof (Hww o (Hwc o Ho')) as E2; congruence.
Qed.

Lemma keep_book_in (m b : Meld) (w : Rank) :
  In b (keep_book m w) -> b = m /\ is_valid_book (cards_of m) w = true.
Proof.
  unfold keep_book; destruct (is_valid_book (cards_of m) w) eqn:E; simpl; [|tauto].
  intros [<- | []]; auto.
Qed.

Lemma keep_run_in (m b : Meld) (w : Rank) (l : list Meld) :
  keep_run m w = Some l -> In b l -> b = m /\ run_ok (cards_of m) w = true.
Proof.
  unfold keep_run, run_ok; destruct (is_valid_run (cards_of m) w) as [[|]|]; simpl;
    intros H; inversion H; subst; simpl; [|tauto].
  intros [<- | []]; auto.
Qed.

Lemma book_wf (hand : list Obj) (w : Rank) (m : Meld) :
  incl m hand -> NoDup m -> is_valid_book (cards_of m) w = true -> well_formed_meld hand w m.
Proof.
  intros H1 H2 H3; split; [exact H1 | split; [exact H2 |]].
  unfold meld_valid; rewrite H3; reflexivity.
Qed.

Lemma run_wf (hand : list Obj) (w : Rank) (m : Meld) :
  incl m hand -> NoDup m -> run_ok (cards_of m) w = true -> well_formed_meld hand w m.
Proof.
  intros H1 H2 H3; split; [exact H1 | split; [exact H2 |]].
  unfold meld_valid; rewrite H3, orb_true_r; reflexivity.
Qed.

Lemma in_firstn_in {A : Type} (n : nat) (l : list A) (x : A) : In x (firstn n l) -> In x l.
Proof. intros H; rewrite <- (firstn_skipn n l); apply in_or_app; left; exact H. Qed.

Lemma find_all_books_wf (hand : list Obj) (w : Rank) (m : Meld) :
  NoDup hand -> In m (find_all_books hand w) -> well_formed_meld hand w m.
Proof.
  intros Hnd; unfold find_all_books.
  destruct (split_hand rank_eqb rank hand w) as [groups wilds] eqn:Es.
  destruct (split_hand_parts _ _ _ _ _ _ Hnd Es) as [Hgroups [Hwn [Hwi Hww]]].
  intros H; apply in_app_or in H as [H | H].
  - apply in_flat_map in H as [[k g] [Hkg H]]; destruct (Hgroups k g Hkg) as [Hgn [Hgi Hgw]].
    apply in_flat_map in H as [n [_ H]]; apply in_flat_map in H as [c [Hc H]].
    pose proof (combinations_incl g n c Hc) as Hci; pose proof (combinations_nodup g n c Hgn Hc) as Hcn.
    apply in_app_or in H as [H | H].
    + apply keep_book_in in H as [-> Hv]; apply book_wf; [apply (incl_tran Hci Hgi) | exact Hcn | exact Hv].
    + apply in_flat_map in H as [nw [_ H]]; destruct (length c + nw <? 3); [contradiction|].
      apply in_flat_map in H as [wc [Hwc H]]; apply keep_book_in in H as [-> Hv].
      destruct (join_wf hand w g wilds c wc Hgi Hgw Hwi Hww Hci Hcn
                  (combinations_incl _ _ _ Hwc) (combinations_nodup _ _ _ Hwn Hwc)) as [Hi Hn].
      apply book_wf; assumption.
  - apply in_flat_map in H as [[k g] [Hkg H]]; destruct (Hgroups k g Hkg) as [Hgn [Hgi Hgw]].
    apply in_flat_map in H as [card [Hcard H]]; apply in_firstn_in in Hcard.
    apply in_flat_map in H as [nw [_ H]]; apply in_flat_map in H as [wc [Hwc H]].
    apply keep_book_in in H as [-> Hv].
    destruct (join_wf hand w g wilds [card] wc Hgi Hgw Hwi Hww) as [Hi Hn].
    + intros x [<- | []]; exact Hcard.
    + repeat constructor; intros [].
    + apply (combinations_incl _ _ _ Hwc).
    + apply (combinations_nodup _ _ _ Hwn Hwc).
    + apply book_wf; assumption.
Qed.

Lemma key_objs_snd (os : list Obj) (ks : list (nat * Obj)) :
  key_objs os = Some ks -> map snd ks = os.
Proof.
  revert ks; induction os as [|o os IH]; simpl; intros ks H.
  - inversion H; reflexivity.
  - apply obind_some in H as [k [_ H]]; apply obind_some in H as [ks' [Hks H]].
    inversion H; subst; simpl; rewrite (IH ks' Hks); reflexivity.
Qed.

Lemma insert_obj_perm (x : nat * Obj) (l : list (nat * Obj)) :
  Permutation (insert_obj x l) (x :: l).
Proof.
  induction l as [|y l IH]; simpl; [reflexivity|].
  destruct (fst x <=? fst y); [reflexivity|].
  rewrite IH; apply perm_swap.
Qed.

Lemma sort_objs_perm (l : list (nat * Obj)) : Permutation (sort_objs l) l.
Proof.
  induction l as [|x l IH]; simpl; [reflexivity|].
  rewrite insert_obj_perm, IH; reflexivity.
Qed.

Lemma sorted_by_rank_perm (os s : list Obj) :
  sorted_by_rank os = Some s -> Permutation s os.
Proof.
  unfold sorted_by_rank; intros H; apply obind_some in H as [ks [Hks H]]; inversion H; subst.
  rewrite <- (key_objs_snd os ks Hks); apply Permutation_map, sort_objs_perm.
Qed.

Lemma find_all_runs_wf (hand : list Obj) (w : Rank) (runs : list Meld) (m : Meld) :
  NoDup hand -> find_all_runs hand w = Some runs -> In m runs -> well_formed_meld hand w m.
Proof.
  intros Hnd; unfold find_all_runs.
  destruct (split_hand suit_eqb suit hand w) as [groups wilds] eqn:Es.
  destruct (split_hand_parts _ _ _ _ _ _ Hnd Es) as [Hgroups [Hwn [Hwi Hww]]].
  intros H Hin.
  apply obind_some in H as [fp [Hfp H]]; apply obind_some in H as [mw [Hmw H]].
  inversion H; subst; apply in_app_or in Hin as [Hin | Hin].
  - destruct (oflat_map_in _ _ _ _ Hfp Hin) as [[k g] [r1 [Hkg [Hf Hin1]]]].
    destruct (Hgroups k g Hkg) as [Hgn [Hgi Hgw]]; cbv beta iota in Hf.
    apply obind_some in Hf as [sc [Hsc Hf]]; pose proof (sorted_by_rank_perm _ _ Hsc) as Hp.
    assert (Hsn : NoDup sc) by (apply (Permutation_NoDup (Permutation_sym Hp)), Hgn).
    assert (Hsi : incl sc g) by (intros o Ho; apply (Permutation_in _ Hp), Ho).
    assert (Hsw : forall o, In o sc -> is_wild (snd o) w = false) by (intros o Ho; apply Hgw, Hsi, Ho).
    destruct (oflat_map_in _ _ _ _ Hf Hin1) as [n [r2 [_ [Hf2 Hin2]]]].
    destruct (oflat_map_in _ _ _ _ Hf2 Hin2) as [c [r3 [Hc [Hf3 Hin3]]]].
    pose proof (combinations_incl sc n c Hc) as Hci; pose proof (combinations_nodup sc n c Hsn Hc) as Hcn.
    apply obind_some in Hf3 as [here [Hh Hf3]]; apply obind_some in Hf3 as [more [Hm Hf3]].
    inversion Hf3; subst; apply in_app_or in Hin3 as [Hin3 | Hin3].
    + apply (keep_run_in _ _ _ _ Hh) in Hin3 as [-> Hv].
      apply run_wf; [apply (incl_tran Hci (incl_tran Hsi Hgi)) | exact Hcn | exact Hv].
    + destruct (oflat_map_in _ _ _ _ Hm Hin3) as [nw [r4 [_ [Hf4 Hin4]]]].
      destruct (oflat_map_in _ _ _ _ Hf4 Hin4) as [wc [r5 [Hwc [Hf5 Hin5]]]].
      apply (keep_run_in _ _ _ _ Hf5) in Hin5 as [-> Hv].
      destruct (join_wf hand w sc wilds c wc (incl_tran Hsi Hgi) Hsw Hwi Hww Hci Hcn
                  (combinations_incl _ _ _ Hwc) (combinations_nodup _ _ _ Hwn Hwc)) as [Hi Hn].
      apply run_wf; assumption.
  - destruct (oflat_map_in _ _ _ _ Hmw Hin) as [[k g] [r1 [Hkg [Hf Hin1]]]].
    destruct (Hgroups k g Hkg) as [Hgn [Hgi Hgw]]; cbv beta iota in Hf.
    destruct (oflat_map_in _ _ _ _ Hf Hin1) as [n [r2 [_ [Hf2 Hin2]]]].
    destruct (oflat_map_in _ _ _ _ Hf2 Hin2) as [c [r3 [Hc [Hf3 Hin3]]]].
    destruct (oflat_map_in _ _ _ _ Hf3 Hin3) as [nw [r4 [_ [Hf4 Hin4]]]].
    destruct (oflat_map_in _ _ _ _ Hf4 Hin4) as [wc [r5 [Hwc [Hf5 Hin5]]]].
    cbv zeta in Hf5; destruct (3 <=? length (c ++ wc)).
    + apply (keep_run_in _ _ _ _ Hf5) in Hin5 as [-> Hv].
      destruct (join_wf hand w g wilds c wc Hgi Hgw Hwi Hww
                  (combinations_incl _ _ _ Hc) (combinations_nodup _ _ _ Hgn Hc)
                  (combinations_incl _ _ _ Hwc) (combinations_nodup _ _ _ Hwn Hwc)) as [Hi Hn].
      apply run_wf; assumption.
    + inversion Hf5; subst; contradiction.
Qed.

Lemma find_all_melds_wf (hand : list Obj) (w : Rank) (all : list Meld) (m : Meld) :
  NoDup hand -> find_all_melds hand w = Some all -> In m all -> well_formed_meld hand w m.
Proof.
  unfold find_all_melds; intros Hnd H Hin.
  apply obind_some in H as [runs [Hr H]]; inversion H; subst.
  apply in_app_or in Hin as [Hin | Hin].
  - apply (find_all_books_wf _ _ _ Hnd Hin).
  - apply (find_all_runs_wf _ _ _ _ Hnd Hr Hin).
Qed.

Lemma dedup_loop_incl (seen : list (list (Rank * Suit))) (all : list Meld) :
  incl (dedup_loop seen all) all.
Proof.
  revert seen; induction all as [|m all IH]; intros seen; simpl; [apply incl_nil_l|].
  destruct (existsb _ seen).
  - apply incl_tl, IH.
  - apply incl_cons; [left; reflexivity | apply incl_tl, IH].
Qed.

(* ------------------------------------------------------------------ *)
(** ** The greedy selection keeps melds disjoint *)

Lemma mem_id_spec (i : nat) (used : list nat) : mem_id i used = true <-> In i used.
Proof.
  unfold mem_id; rewrite existsb_exists; split.
  - intros [j [Hj E]]; apply Nat.eqb_eq in E; subst; exact Hj.
  - intros Hi; exists i; split; [exact Hi | apply Nat.eqb_refl].
Qed.

Lemma select_best_from (w : Rank) (used : list nat) (all : list Meld) (best : option Meld)
    (bp : Z) (res : option Meld) (p : Z) (m : Meld) :
  select_best w used all best bp = Some (res, p) -> res = Some m ->
  best = Some m \/ (In m all /\ existsb (fun o => mem_id (fst o) used) m = false).
Proof.
  revert best bp; induction all as [|x all IH]; intros best bp H Hres; simpl in H.
  - inversion H; subst; left; reflexivity.
  - destruct (existsb (fun o => mem_id (fst o) used) x) eqn:Ex.
    + destruct (IH _ _ H Hres) as [Hb | [Hm Hd]]; [left; exact Hb | right; split; [right|]; assumption].
    + apply obind_some in H as [ps [_ H]]; destruct (bp <? ps)%Z.
      * destruct (IH _ _ H Hres) as [Hb | [Hm Hd]].
        -- inversion Hb; subst; right; split; [left; reflexivity | exact Ex].
        -- right; split; [right|]; assumption.
      * destruct (IH _ _ H Hres) as [Hb | [Hm Hd]]; [left; exact Hb | right; split; [right|]; assumption].
Qed.

Lemma used_ids_app (ms ms' : list Meld) : used_ids (ms ++ ms') = used_ids ms ++ used_ids ms'.
Proof. unfold used_ids; apply flat_map_app. Qed.

Section Greedy.
Variable hand : list Obj.
Variable w : Rank.
Hypothesis Hids : NoDup (map fst hand).

Lemma wf_ids_nodup (m : Meld) : well_formed_meld hand w m -> NoDup (ids_of m).
Proof. intros [Hi [Hn _]]; apply (nodup_ids hand m Hids Hi Hn). Qed.

Lemma greedy_loop_wf (fuel : nat) (all : list Meld) (used : list nat) (result final : list Meld) :
  (forall m, In m all -> well_formed_meld hand w m) ->
  used = used_ids result -> NoDup (used_ids result) ->
  Forall (well_formed_meld hand w) result ->
  greedy_loop fuel w all used result = Some final ->
  NoDup (used_ids final) /\ Forall (well_formed_meld hand w) final.
Proof.
  intros Hall; revert used result; induction fuel as [|fuel IH]; intros used result Hu Hnd Hf H;
    simpl in H; [discriminate|].
  apply obind_some in H as [[res p] [Hs H]]; simpl in H.
  destruct res as [m|]; [| inversion H; subst; auto].
  destruct (select_best_from _ _ _ _ _ _ _ m Hs eq_refl) as [Hb | [Hm Hd]]; [discriminate|].
  apply (IH (used ++ ids_of m) (result ++ [m])); [| | | exact H].
  - subst; rewrite used_ids_app; simpl; rewrite app_nil_r; reflexivity.
  - rewrite used_ids_app; simpl; rewrite app_nil_r.
    apply NoDup_app; [exact Hnd | apply wf_ids_nodup, Hall, Hm |].
    intros i Hi Hi'; unfold ids_of in Hi'; apply in_map_iff in Hi' as [o [<- Ho]].
    assert (existsb (fun o => mem_id (fst o) used) m = true) as Ht
      by (apply existsb_exists; exists o; split; [exact Ho | apply mem_id_spec; subst; exact Hi]).
    congruence.
  - apply Forall_app; split; [exact Hf | constructor; [apply Hall, Hm | constructor]].
Qed.

(** The best combination found so far: well formed melds, disjoint, with
    their leftover points. *)
Lemma try_starts_wf (unique starts : list Meld) (best res : list Meld * Z) :
  (forall m, In m unique -> well_formed_meld hand w m) -> incl starts unique ->
  Forall (well_formed_meld hand w) (fst best) -> NoDup (used_ids (fst best)) ->
  calculate_remaining_points hand (fst best) w = Some (snd best) ->
  try_starts hand unique w starts best = Some res ->
  Forall (well_formed_meld hand w) (fst res) /\ NoDup (used_ids (fst res)) /\
  calculate_remaining_points hand (fst res) w = Some (snd res).
Proof.
  intros Hall; revert best; induction starts as [|s starts IH]; intros best Hinc Hf Hnd Hp H;
    simpl in H; [inversion H; subst; auto|].
  apply obind_some in H as [result [Hg H]]; apply obind_some in H as [rp [Hrp H]].
  assert (Hs : well_formed_meld hand w s) by (apply Hall, Hinc; left; reflexivity).
  unfold greedy_meld_selection in Hg.
  destruct (greedy_loop_wf (S (length unique)) unique (used_ids [s]) [s] result Hall eq_refl)
    as [Hrn Hrf]; [| | exact Hg |].
  { simpl; rewrite app_nil_r; apply wf_ids_nodup, Hs. }
  { constructor; [exact Hs | constructor]. }
  apply (IH _ (proj2 (incl_cons_inv Hinc))) in H; [exact H | ..];
    destruct (rp <? snd best)%Z; simpl; assumption.
Qed.

End Greedy.

(* ------------------------------------------------------------------ *)
(** ** Zero leftover points means every card is melded *)

Lemma card_value_ge3 (c : Card) (w : Rank) (v : Z) : card_value c w = Some v -> (3 <= v)%Z.
Proof.
  unfold card_value; destruct (is_wild c w); [intros H; inversion H; lia|].
  destruct (existsb _ _); [intros H; inversion H; lia|].
  destruct c as [r s]; destruct r; simpl; intros H; inversion H; lia.
Qed.

Lemma hand_value_none (w : Rank) (cs : list Card) :
  fold_left (fun acc card => total <- acc ;; x <- card_value card w ;; Some (total + x)%Z)
    cs None = None.
Proof. induction cs as [|c cs IH]; simpl; [reflexivity | exact IH]. Qed.

Lemma hand_value_grows (w : Rank) (cs : list Card) (a v : Z) :
  fold_left (fun acc card => total <- acc ;; x <- card_value card w ;; Some (total + x)%Z)
    cs (Some a) = Some v ->
  (a <= v)%Z /\ (cs <> [] -> (a + 3 <= v)%Z).
Proof.
  revert a; induction cs as [|c cs IH]; intros a H; simpl in H.
  - inversion H; subst; split; [lia | intros E; contradiction E; reflexivity].
  - destruct (card_value c w) as [x|] eqn:Ec; simpl in H.
    + apply card_value_ge3 in Ec; destruct (IH _ H) as [H1 _]; split; [lia | intros _; lia].
    + rewrite hand_value_none in H; discriminate.
Qed.

Lemma hand_value_zero (cs : list Card) (w : Rank) :
  calculate_hand_value cs w = Some 0%Z -> cs = [].
Proof.
  unfold calculate_hand_value; intros H; apply hand_value_grows in H as [_ H].
  destruct cs as [|c cs]; [reflexivity|].
  exfalso; assert (Hne : c :: cs <> []) by discriminate; specialize (H Hne); lia.
Qed.

Lemma used_ids_concat (melds : list Meld) : map fst (concat melds) = used_ids melds.
Proof.
  unfold used_ids, ids_of; rewrite flat_map_concat_map, concat_map; reflexivity.
Qed.

Lemma partition_of_zero (hand : list Obj) (w : Rank) (melds : list Meld) :
  NoDup (map fst hand) -> Forall (well_formed_meld hand w) melds ->
  NoDup (used_ids melds) -> calculate_remaining_points hand melds w = Some 0%Z ->
  is_partition hand melds w.
Proof.
  intros Hids Hf Hnd H; unfold calculate_remaining_points in H.
  apply hand_value_zero, map_eq_nil in H.
  rewrite Forall_forall in Hf.
  assert (Hsub : forall x, In x (concat melds) -> In x hand).
  { intros x Hx; apply in_concat in Hx as [m [Hm Hx]]; apply (Hf m Hm), Hx. }
  split.
  - apply NoDup_Permutation.
    + apply (NoDup_map_inv fst); rewrite used_ids_concat; exact Hnd.
    + apply (NoDup_map_inv fst), Hids.
    + intros x; split; [apply Hsub|]; intros Hx.
      destruct (mem_id (fst x) (used_ids melds)) eqn:Em.
      * apply mem_id_spec in Em; rewrite <- used_ids_concat in Em.
        apply in_map_iff in Em as [o [Eo Ho]].
        rewrite <- (ids_unique hand o x Hids (Hsub o Ho) Hx Eo); exact Ho.
      * assert (Hin : In x (filter (fun o => negb (mem_id (fst o) (used_ids melds))) hand))
          by (apply filter_In; rewrite Em; split; [exact Hx | reflexivity]).
        rewrite H in Hin; contradiction.
  - apply Forall_forall; intros m Hm; apply (Hf m Hm).
Qed.

Lemma remaining_points_nil (hand : list Obj) (w : Rank) :
  calculate_remaining_points hand [] w = calculate_hand_value (cards_of hand) w.
Proof.
  unfold calculate_remaining_points; f_equal; f_equal.
  induction hand as [|o hand IH]; simpl; [reflexivity | exact (f_equal (cons o) IH)].
Qed.

(** What [find_best_meld_combination] returns: the empty combination of
    an empty hand, or disjoint well formed melds with their leftover. *)
Lemma find_best_meld_combination_wf (hand : list Obj) (w : Rank) (melds : list Meld) (p : Z) :
  NoDup (map fst hand) -> find_best_meld_combination hand w = Some (melds, p) ->
  Forall (well_formed_meld hand w) melds /\ NoDup (used_ids melds) /\
  calculate_remaining_points hand melds w = Some p.
Proof.
  intros Hids H; pose proof (NoDup_map_inv fst hand Hids) as Hnd.
  destruct hand as [|o os].
  - simpl in H; inversion H; subst; split; [constructor | split; [constructor | reflexivity]].
  - unfold find_best_meld_combination in H.
    apply obind_some in H as [all [Hall H]]; cbv beta zeta in H.
    apply obind_some in H as [brp [Hbrp H]]; apply obind_some in H as [best [Hbest H]].
    apply obind_some in H as [result [Hres H]]; apply obind_some in H as [rp [Hrp H]].
    assert (Hu : forall m, In m (remove_duplicate_melds all) -> well_formed_meld (o :: os) w m)
      by (intros m Hm; apply (find_all_melds_wf _ _ _ _ Hnd Hall), (dedup_loop_incl [] all), Hm).
    destruct (try_starts_wf (o :: os) w Hids _ _ ([], brp) best Hu (incl_refl _))
      as [Hbf [Hbn Hbp]];
      [constructor | constructor | simpl; rewrite remaining_points_nil; exact Hbrp | exact Hbest |].
    unfold greedy_meld_selection in Hres.
    destruct (greedy_loop_wf (o :: os) w Hids (S (length (remove_duplicate_melds all)))
                (remove_duplicate_melds all) (used_ids []) [] result Hu eq_refl) as [Hrn Hrf];
      [constructor | constructor | exact Hres |].
    destruct (rp <? snd best)%Z; inversion H; subst; simpl in *; auto.
Qed.

Lemma hand_objects_ids_from (s : nat) (hand : list Card) :
  map fst (combine (seq s (length hand)) hand) = seq s (length hand).
Proof.
  revert s; induction hand as [|c hand IH]; intros s; simpl; [reflexivity | rewrite IH; reflexivity].
Qed.

Lemma hand_objects_ids (hand : list Card) : NoDup (map fst (hand_objects hand)).
Proof. unfold hand_objects; rewrite hand_objects_ids_from; apply seq_NoDup. Qed.

(* ------------------------------------------------------------------ *)
(** ** C2, amended: what [can_go_out] guarantees *)

(** C2 (amended): [can_go_out] is sound but not complete.  When it answers
    true it also returns melds, and these melds are valid books or runs that
    partition the hand: every card object of the hand lies in exactly one
    of them.  When it answers false it returns no melds.  The converse fails
    (see [can_go_out_misses_partition]): a hand that has such a partition
    may still be answered false. *)
Theorem can_go_out_sound (hand : list Card) (w : Rank) (b : bool)
    (melds : option (list Meld)) :
  can_go_out (hand_objects hand) w = Some (b, melds) ->
  (b = true /\ exists ms, melds = Some ms /\ is_partition (hand_objects hand) ms w) \/
  (b = false /\ melds = None).
Proof.
  unfold can_go_out; intros H; apply obind_some in H as [[ms p] [Hf H]]; simpl in H.
  destruct (p =? 0)%Z eqn:Ep; inversion H; subst; [left | right; auto].
  split; [reflexivity | exists ms; split; [reflexivity |]].
  apply Z.eqb_eq in Ep; subst.
  destruct (find_best_meld_combination_wf _ _ _ _ (hand_objects_ids hand) Hf) as [Hw [Hn Hp]].
  apply partition_of_zero; [apply hand_objects_ids | exact Hw | exact Hn | exact Hp].
Qed.

Lemma can_go_out_sound_witness :
  can_go_out (hand_objects Samples.cards_go_out) R7 = Some (true, Some Samples.melds_go_out) /\
  ((true = true /\ exists ms, Some Samples.melds_go_out = Some ms /\
                              is_partition (hand_objects Samples.cards_go_out) ms R7) \/
   (true = false /\ Some Samples.melds_go_out = None)).
Proof.
  split; [vm_compute; reflexivity|].
  apply (can_go_out_sound Samples.cards_go_out R7 true (Some Samples.melds_go_out)).
  vm_compute; reflexivity.
Defined.

(* ------------------------------------------------------------------ *)
(** ** The fuel of [greedy_loop] never runs out *)

Lemma card_value_total (c : Card) (w : Rank) : exists v, card_value c w = Some v.
Proof. destruct c as [r s]; destruct r, w; unfold card_value, is_wild; simpl; eauto. Qed.

Lemma hand_value_total (cs : list Card) (w : Rank) : exists v, calculate_hand_value cs w = Some v.
Proof.
  unfold calculate_hand_value; generalize 0%Z; induction cs as [|c cs IH]; intros a; simpl; [eauto|].
  destruct (card_value_total c w) as [x Hx]; rewrite Hx; simpl; apply IH.
Qed.

Lemma select_best_total (w : Rank) (used : list nat) (all : list Meld) (best : option Meld) (bp : Z) :
  exists r, select_best w used all best bp = Some r.
Proof.
  revert best bp; induction all as [|m all IH]; intros best bp; simpl; [eauto|].
  destruct (existsb (fun o => mem_id (fst o) used) m); [apply IH|].
  destruct (hand_value_total (cards_of m) w) as [v Hv]; rewrite Hv; simpl.
  destruct (bp <? v)%Z; apply IH.
Qed.

Lemma select_best_gain (w : Rank) (used : list nat) (all : list Meld) (best : option Meld)
    (bp : Z) (res : option Meld) (p : Z) :
  select_best w used all best bp = Some (res, p) ->
  (res = best /\ p = bp) \/
  (exists m, res = Some m /\ calculate_hand_value (cards_of m) w = Some p /\ (bp < p)%Z).
Proof.
  revert best bp; induction all as [|x all IH]; intros best bp H; simpl in H.
  - inversion H; subst; left; auto.
  - destruct (existsb (fun o => mem_id (fst o) used) x); [apply IH, H|].
    apply obind_some in H as [ps [Hps H]]; destruct (bp <? ps)%Z eqn:E.
    + apply Z.ltb_lt in E; destruct (IH _ _ H) as [[-> ->] | [m [-> [Hm Hl]]]].
      * right; exists x; auto.
      * right; exists m; split; [reflexivity | split; [exact Hm | lia]].
    + apply IH, H.
Qed.

Lemma filter_length_mono {A : Type} (f f' : A -> bool) (l : list A) :
  (forall x, In x l -> f' x = true -> f x = true) ->
  length (filter f' l) <= length (filter f l).
Proof.
  induction l as [|x l IH]; intros Himp; simpl; [lia|].
  assert (IH' : length (filter f' l) <= length (filter f l))
    by (apply IH; intros y Hy; apply Himp; right; exact Hy).
  destruct (f' x) eqn:E'.
  - rewrite (Himp x (or_introl eq_refl) E'); simpl; lia.
  - destruct (f x); simpl; lia.
Qed.

Lemma filter_length_strict {A : Type} (f f' : A -> bool) (l : list A) (m : A) :
  (forall x, In x l -> f' x = true -> f x = true) ->
  In m l -> f m = true -> f' m = false ->
  length (filter f' l) < length (filter f l).
Proof.
  induction l as [|x l IH]; intros Himp Hm Hf Hf'; [contradiction|].
  assert (Himp' : forall y, In y l -> f' y = true -> f y = true)
    by (intros y Hy; apply Himp; right; exact Hy).
  destruct Hm as [<- | Hm]; simpl.
  - rewrite Hf, Hf'; simpl; pose proof (filter_length_mono f f' l Himp'); lia.
  - specialize (IH Himp' Hm Hf Hf').
    destruct (f' x) eqn:E'.
    + rewrite (Himp x (or_introl eq_refl) E'); simpl; lia.
    + destruct (f x); simpl; lia.
Qed.

(** Each round of the [while True] loop takes a meld worth more than
    nothing, hence with a card, out of the melds still disjoint from
    [used_cards]: their number is a bound on the rounds left. *)
Lemma greedy_loop_some (fuel : nat) (w : Rank) (all : list Meld) (used : list nat)
    (result : list Meld) :
  length (filter (fun m => negb (existsb (fun o => mem_id (fst o) used) m)) all) < fuel ->
  exists r, greedy_loop fuel w all used result = Some r.
Proof.
  revert used result; induction fuel as [|fuel IH]; intros used result Hlt; [lia|]; simpl.
  destruct (select_best_total w used all None 0%Z) as [[res p] Hs]; rewrite Hs; simpl.
  destruct res as [m|]; [|eauto].
  destruct (select_best_from _ _ _ _ _ _ _ m Hs eq_refl) as [Hb | [Hm Hd]]; [discriminate|].
  destruct (select_best_gain _ _ _ _ _ _ _ Hs) as [[Hb _] | [m' [E [Hv Hpos]]]]; [discriminate|].
  inversion E; subst m'.
  destruct m as [|o m]; [vm_compute in Hv; inversion Hv; lia|].
  apply IH; eapply Nat.lt_le_trans; [|apply le_S_n, Hlt].
  apply (filter_length_strict _ _ _ (o :: m)); [| exact Hm | rewrite Hd; reflexivity |].
  - intros x _ Hx; apply negb_true_iff in Hx; apply negb_true_iff.
    destruct (existsb (fun o => mem_id (fst o) used) x) eqn:Ex; [|reflexivity].
    apply existsb_exists in Ex as [y [Hy Hu]]; apply mem_id_spec in Hu.
    rewrite <- Hx; symmetry; apply existsb_exists; exists y; split; [exact Hy|].
    apply mem_id_spec, in_or_app; left; exact Hu.
  - apply negb_false_iff, existsb_exists; exists o; split; [left; reflexivity|].
    apply mem_id_spec, in_or_app; right; left; reflexivity.
Qed.

Lemma greedy_loop_enough_fuel (hand : list Obj) (all : list Meld) (w : Rank)
    (current : list Meld) :
  exists r, greedy_meld_selection hand all w current = Some r.
Proof.
  unfold greedy_meld_selection; apply greedy_loop_some, le_n_S, filter_length_le.
Qed.

(* ================================================================== *)
(** * Further properties of the code *)

(* ------------------------------------------------------------------ *)
(** ** five_crowns.py: the validators *)

Lemma perm_filter {A : Type} (f : A -> bool) (l l' : list A) :
  Permutation l l' -> Permutation (filter f l) (filter f l').
Proof.
  induction 1 as [| x l l' _ IH | x y l | l l' l'' _ IH1 _ IH2]; simpl.
  - constructor.
  - destruct (f x); [constructor|]; exact IH.
  - destruct (f x), (f y); try constructor; reflexivity.
  - rewrite IH1; exact IH2.
Qed.

Lemma perm_existsb {A : Type} (f : A -> bool) (l l' : list A) :
  Permutation l l' -> existsb f l = existsb f l'.
Proof.
  intros Hp; apply eq_true_iff_eq; rewrite !existsb_exists.
  split; intros [x [Hx Hf]]; exists x; split; auto.
  - apply (Permutation_in _ Hp), Hx.
  - apply (Permutation_in _ (Permutation_sym Hp)), Hx.
Qed.

Lemma card_eqb_spec (a b : Card) : card_eqb a b = true <-> a = b.
Proof.
  destruct a as [r s], b as [r' s']; unfold card_eqb; simpl.
  rewrite andb_true_iff, rank_eqb_spec, suit_eqb_spec; split.
  - intros [-> ->]; reflexivity.
  - intros H; inversion H; auto.
Qed.

Lemma suits_distinct_spec (seen : list Suit) (l : list Card) :
  suits_distinct seen l = true <-> NoDup (map suit l) /\ (forall c, In c l -> ~ In (suit c) seen).
Proof.
  revert seen; induction l as [|c l IH]; intros seen; simpl.
  - split; [intros _; split; [constructor | tauto] | reflexivity].
  - destruct (existsb (suit_eqb (suit c)) seen) eqn:E.
    + split; [discriminate|]; intros [_ H].
      apply existsb_exists in E as [s [Hs Es]]; apply suit_eqb_spec in Es; subst.
      exfalso; apply (H c); [left; reflexivity | exact Hs].
    + rewrite IH; split.
      * intros [Hnd Hn]; split.
        -- constructor; [|exact Hnd].
           intros Hin; apply in_map_iff in Hin as [d [Ed Hd]].
           apply (Hn d Hd); rewrite Ed; left; reflexivity.
        -- intros d [Ed | Hd] Hin.
           ++ subst d.
              assert (existsb (suit_eqb (suit c)) seen = true) as Ht
                by (apply existsb_exists; exists (suit c); split; [exact Hin | apply suit_eqb_spec; reflexivity]).
              congruence.
           ++ apply (Hn d Hd); right; exact Hin.
      * intros [Hnd Hn]; inversion Hnd as [|? ? Hc Hnd']; subst; split; [exact Hnd'|].
        intros d Hd [Ed | Hin].
        -- apply Hc; rewrite Ed; apply in_map, Hd.
        -- apply (Hn d (or_intror Hd) Hin).
Qed.

Lemma forallb_same_head {A B : Type} (f : A -> B) (eqb : B -> B -> bool)
    (Heqb : forall a b, eqb a b = true <-> a = b) (c0 : A) (rest : list A) :
  forallb (fun c => eqb (f c) (f c0)) (c0 :: rest) = true <->
  (forall c d, In c (c0 :: rest) -> In d (c0 :: rest) -> f c = f d).
Proof.
  rewrite forallb_forall; split.
  - intros H c d Hc Hd.
    pose proof (proj1 (Heqb _ _) (H c Hc)); pose proof (proj1 (Heqb _ _) (H d Hd)); congruence.
  - intros H c Hc; apply Heqb, H; [exact Hc | left; reflexivity].
Qed.

Lemma is_valid_book_char (cards : list Card) (w : Rank) :
  is_valid_book cards w = true <->
  3 <= length cards /\ non_wilds_of cards w <> [] /\
  (forall c d, In c (non_wilds_of cards w) -> In d (non_wilds_of cards w) -> rank c = rank d) /\
  NoDup (map suit (non_wilds_of cards w)).
Proof.
  unfold is_valid_book; cbv zeta.
  destruct (Nat.ltb_spec (length cards) 3) as [Hl | Hl].
  - split; [discriminate | lia].
  - destruct (non_wilds_of cards w) as [|c0 rest] eqn:E.
    + split; [discriminate | intros [_ [H _]]; contradiction H; reflexivity].
    + pose proof (forallb_same_head rank rank_eqb rank_eqb_spec c0 rest) as Hf.
      destruct (forallb (fun c => rank_eqb (rank c) (rank c0)) (c0 :: rest)) eqn:Ef; cbn [negb].
      * rewrite suits_distinct_spec; split.
        -- intros [Hnd _]; split; [lia|]; split; [discriminate|]; split; [apply Hf; reflexivity | exact Hnd].
        -- intros [_ [_ [_ Hnd]]]; split; [exact Hnd | intros ? ? []].
      * split; [discriminate | intros [_ [_ [H _]]]; apply Hf in H; congruence].
Qed.

(** [is_valid_book] accepts exactly the lists of at least three cards whose
    non-wild cards exist, share one rank and have pairwise different
    suits. *)
Theorem is_valid_book_iff (cards : list Card) (w : Rank) :
  is_valid_book cards w = true <->
  3 <= length cards /\ non_wilds_of cards w <> [] /\
  (forall c d, In c (non_wilds_of cards w) -> In d (non_wilds_of cards w) -> rank c = rank d) /\
  NoDup (map suit (non_wilds_of cards w)).
Proof. exact (is_valid_book_char cards w). Qed.

Lemma ranks_distinct_sound (seen : list Rank) (l : list (nat * Card)) :
  ranks_distinct seen l = true -> NoDup (map rank (map snd l)).
Proof.
  revert seen; induction l as [|[k c] l IH]; intros seen H; simpl in *; [constructor|].
  destruct (existsb (rank_eqb (rank c)) seen) eqn:E; [discriminate|].
  constructor; [|apply (IH _ H)].
  intros Hin; clear IH E.
  assert (Hgen : forall seen', In (rank c) seen' -> ranks_distinct seen' l = true -> False).
  { clear H; induction l as [|[k' c'] l IH]; intros seen' Hs Hr; simpl in *; [contradiction|].
    destruct (existsb (rank_eqb (rank c')) seen') eqn:E'; [discriminate|].
    destruct Hin as [Hc | Hin].
    - assert (existsb (rank_eqb (rank c')) seen' = true) as Ht
        by (apply existsb_exists; exists (rank c); split; [exact Hs | apply rank_eqb_spec; auto]).
      congruence.
    - apply (IH Hin (rank c' :: seen')); [right; exact Hs | exact Hr]. }
  apply (Hgen (rank c :: seen)); [left; reflexivity | exact H].
Qed.

Lemma key_by_rank_map (l : list Card) (ks : list (nat * Card)) :
  key_by_rank l = Some ks ->
  ks = map (fun c => (match RANK_VALUES (rank c) with Some k => k | None => 0 end, c)) l.
Proof.
  revert ks; induction l as [|c l IH]; intros ks H; simpl in H.
  - inversion H; reflexivity.
  - destruct (RANK_VALUES (rank c)) as [k|] eqn:Ek; [|discriminate].
    destruct (key_by_rank l) as [ks'|]; [|discriminate].
    inversion H; subst; simpl; rewrite Ek, <- (IH ks' eq_refl); reflexivity.
Qed.

Lemma nodup_map_transfer {A B C : Type} (f : A -> B) (g : A -> C) (l : list A) :
  (forall x y, In x l -> In y l -> g x = g y -> f x = f y) ->
  NoDup (map f l) -> NoDup (map g l).
Proof.
  induction l as [|x l IH]; intros Hfg Hnd; simpl in *; [constructor|].
  inversion Hnd as [|? ? Hx Hnd']; subst; constructor.
  - intros Hin; apply in_map_iff in Hin as [y [Ey Hy]]; apply Hx.
    rewrite (Hfg x y (or_introl eq_refl) (or_intror Hy) (eq_sym Ey)); apply in_map, Hy.
  - apply IH; [intros a b Ha Hb; apply Hfg; right; assumption | exact Hnd'].
Qed.

(** Two lists sorted by key, permutations of each other, with no repeated
    key, are equal. *)
Lemma sorted_perm_unique (l1 l2 : list (nat * Card)) :
  Sorted (fun a b => fst a <= fst b) l1 -> Sorted (fun a b => fst a <= fst b) l2 ->
  Permutation l1 l2 -> NoDup (map fst l1) -> l1 = l2.
Proof.
  assert (Htr : forall x y z : nat * Card, fst x <= fst y -> fst y <= fst z -> fst x <= fst z)
    by (intros x y z; lia).
  intros H1 H2; apply Sorted_StronglySorted in H1; [|exact Htr];
    apply Sorted_StronglySorted in H2; [|exact Htr].
  revert l2 H2; induction H1 as [|a t1 Ht1 IH Ha]; intros l2 H2 Hp Hnd.
  - apply Permutation_nil in Hp; subst; reflexivity.
  - destruct l2 as [|b t2]; [apply Permutation_sym, Permutation_nil in Hp; discriminate|].
    apply StronglySorted_inv in H2 as [Ht2 Hb].
    simpl in Hnd; inversion Hnd as [|? ? Hna Hnd']; subst.
    assert (Hab : a = b).
    { assert (Ha2 : In a (b :: t2)) by (apply (Permutation_in _ Hp); left; reflexivity).
      assert (Hb1 : In b (a :: t1)) by (apply (Permutation_in _ (Permutation_sym Hp)); left; reflexivity).
      destruct Ha2 as [-> | Ha2]; [reflexivity|].
      destruct Hb1 as [-> | Hb1]; [reflexivity|].
      rewrite Forall_forall in Ha, Hb; specialize (Ha b Hb1); specialize (Hb a Ha2).
      exfalso; apply Hna; replace (fst a) with (fst b) by lia; apply in_map, Hb1. }
    subst b; f_equal; apply IH; [exact Ht2 | apply (Permutation_cons_inv Hp) | exact Hnd'].
Qed.

(** The validators do not depend on the order in which the cards are
    given. *)
Theorem validators_order_independent (cards cards' : list Card) (w : Rank) :
  Permutation cards cards' ->
  is_valid_book cards w = is_valid_book cards' w /\ is_valid_run cards w = is_valid_run cards' w.
Proof.
  intros Hp.
  assert (HpN : Permutation (non_wilds_of cards w) (non_wilds_of cards' w)) by (apply perm_filter, Hp).
  split.
  - apply eq_true_iff_eq; rewrite !is_valid_book_char, (Permutation_length Hp).
    assert (Hne : forall l l' : list Card, Permutation l l' -> l <> [] -> l' <> [])
      by (intros l l' Hll Hl E; subst l'; apply Permutation_sym, Permutation_nil in Hll; contradiction).
    split; intros [H1 [H2 [H3 H4]]].
    + split; [exact H1|]; split; [exact (Hne _ _ HpN H2)|]; split.
      * intros c d Hc Hd; apply H3; apply (Permutation_in _ (Permutation_sym HpN)); assumption.
      * apply (Permutation_NoDup (Permutation_map suit HpN)), H4.
    + split; [exact H1|]; split; [exact (Hne _ _ (Permutation_sym HpN) H2)|]; split.
      * intros c d Hc Hd; apply H3; apply (Permutation_in _ HpN); assumption.
      * apply (Permutation_NoDup (Permutation_map suit (Permutation_sym HpN))), H4.
  - destruct (non_wilds_keyed cards w) as [ks [Hks [Hm Hf]]].
    destruct (non_wilds_keyed cards' w) as [ks' [Hks' [Hm' Hf']]].
    pose proof (key_by_rank_map _ _ Hks) as Eks; pose proof (key_by_rank_map _ _ Hks') as Eks'.
    unfold is_valid_run; rewrite (Permutation_length Hp).
    destruct (length cards' <? 3); [reflexivity|].
    destruct (non_wilds_of cards w) as [|c0 r] eqn:E1;
      destruct (non_wilds_of cards' w) as [|c0' r'] eqn:E2.
    + reflexivity.
    + apply Permutation_nil in HpN; discriminate.
    + apply Permutation_sym, Permutation_nil in HpN; discriminate.
    + assert (Hs : forallb (fun c => suit_eqb (suit c) (suit c0)) (c0 :: r) =
                   forallb (fun c => suit_eqb (suit c) (suit c0')) (c0' :: r')).
      { apply eq_true_iff_eq.
        rewrite (forallb_same_head suit suit_eqb suit_eqb_spec c0 r),
                (forallb_same_head suit suit_eqb suit_eqb_spec c0' r').
        split; intros H c d Hc Hd; apply H.
        - apply (Permutation_in _ (Permutation_sym HpN)), Hc.
        - apply (Permutation_in _ (Permutation_sym HpN)), Hd.
        - apply (Permutation_in _ HpN), Hc.
        - apply (Permutation_in _ HpN), Hd. }
      rewrite Hs; destruct (negb _); [reflexivity|].
      rewrite Hks, Hks'; f_equal.
      assert (Hrt : forall S S', ranks_distinct [] S = false -> ranks_distinct [] S' = false ->
                      run_tail cards w (c0 :: r) S = run_tail cards' w (c0' :: r') S').
      { intros S S' HS HS'; unfold run_tail; rewrite HS, HS'; reflexivity. }
      assert (HpS : Permutation (map snd (sort_keyed ks)) (c0 :: r))
        by (rewrite (Permutation_map snd (sort_keyed_perm ks)), Hm; reflexivity).
      assert (HpS' : Permutation (map snd (sort_keyed ks')) (c0' :: r'))
        by (rewrite (Permutation_map snd (sort_keyed_perm ks')), Hm'; reflexivity).
      destruct (ranks_distinct [] (sort_keyed ks)) eqn:Ed.
      * apply ranks_distinct_sound in Ed.
        assert (Hnr : NoDup (map rank (c0 :: r)))
          by (apply (Permutation_NoDup (Permutation_map rank HpS)), Ed).
        assert (HS : sort_keyed ks = sort_keyed ks').
        { apply sorted_perm_unique; [apply sort_keyed_sorted | apply sort_keyed_sorted | |].
          - apply (Permutation_trans (sort_keyed_perm ks)).
            apply Permutation_sym, (Permutation_trans (sort_keyed_perm ks')).
            rewrite Eks, Eks'; apply Permutation_map, Permutation_sym, HpN.
          - apply (Permutation_NoDup (Permutation_map fst (Permutation_sym (sort_keyed_perm ks)))).
            assert (Hmap : map fst ks =
                           map (fun c => match RANK_VALUES (rank c) with Some k => k | None => 0 end) (c0 :: r))
              by (rewrite Eks, map_map; reflexivity).
            rewrite Hmap; apply (nodup_map_transfer rank); [|exact Hnr].
            intros x y Hx Hy Exy.
            rewrite <- E1 in Hx, Hy; apply in_non_wilds in Hx as [_ Hx]; apply in_non_wilds in Hy as [_ Hy].
            destruct (RANK_VALUES_some (rank x) (non_wild_not_joker x w Hx)) as [kx [Ex _]].
            destruct (RANK_VALUES_some (rank y) (non_wild_not_joker y w Hy)) as [ky [Ey _]].
            rewrite Ex, Ey in Exy; subst ky; apply (RANK_VALUES_inj _ _ kx Ex Ey). }
        rewrite <- HS; unfold run_tail.
        rewrite (Permutation_length Hp), (Permutation_length HpN).
        rewrite (perm_existsb (fun c => rank_eqb (rank c) RK) _ _ Hp).
        rewrite (perm_existsb (fun c => rank_eqb (rank c) R3) _ _ Hp).
        reflexivity.
      * apply Hrt; [exact Ed|].
        destruct (ranks_distinct [] (sort_keyed ks')) eqn:Ed'; [|reflexivity].
        apply ranks_distinct_sound in Ed'.
        assert (Hnr : NoDup (map rank (c0 :: r))).
        { apply (Permutation_NoDup (Permutation_map rank (Permutation_sym HpN))).
          apply (Permutation_NoDup (Permutation_map rank HpS')), Ed'. }
        assert (Ht : ranks_distinct [] (sort_keyed ks) = true).
        { apply ranks_distinct_nodup; [|intros ? ? []].
          apply (Permutation_NoDup (Permutation_map rank (Permutation_sym HpS))), Hnr. }
        congruence.
Qed.

Lemma validators_order_independent_witness :
  Permutation [mkCard R5 HEARTS; mkCard R7 SPADES; mkCard R6 HEARTS]
              [mkCard R7 SPADES; mkCard R5 HEARTS; mkCard R6 HEARTS] /\
  is_valid_book [mkCard R5 HEARTS; mkCard R7 SPADES; mkCard R6 HEARTS] R7 =
    is_valid_book [mkCard R7 SPADES; mkCard R5 HEARTS; mkCard R6 HEARTS] R7 /\
  is_valid_run [mkCard R5 HEARTS; mkCard R7 SPADES; mkCard R6 HEARTS] R7 =
    is_valid_run [mkCard R7 SPADES; mkCard R5 HEARTS; mkCard R6 HEARTS] R7.
Proof.
  split; [apply perm_swap|].
  apply validators_order_independent, perm_swap.
Defined.

(* ------------------------------------------------------------------ *)
(** ** five_crowns.py: create_card *)

Import CardHelpers.

(** [create_card] raises [KeyError] exactly when the suit letter is not a
    key of [suit_map]; otherwise it returns a card of the given rank with
    the mapped suit. *)
Theorem create_card_spec (r : Rank) (s : string) :
  (~ In s (map fst suit_map) /\ create_card r s = Raised KeyError) \/
  (exists su, In (s, su) suit_map /\ create_card r s = Done (mkCard r su)).
Proof.
  unfold create_card, suit_map; cbn [find fst snd map].
  destruct (String.eqb_spec "S" s) as [<- | H1]; [right; eexists; split; [left|]; reflexivity|].
  destruct (String.eqb_spec "H" s) as [<- | H2]; [right; eexists; split; [right; left|]; reflexivity|].
  destruct (String.eqb_spec "C" s) as [<- | H3];
    [right; eexists; split; [do 2 right; left|]; reflexivity|].
  destruct (String.eqb_spec "D" s) as [<- | H4];
    [right; eexists; split; [do 3 right; left|]; reflexivity|].
  destruct (String.eqb_spec "T" s) as [<- | H5];
    [right; eexists; split; [do 4 right; left|]; reflexivity|].
  destruct (String.eqb_spec "J" s) as [<- | H6];
    [right; eexists; split; [do 5 right; left|]; reflexivity|].
  left; split; [|reflexivity].
  simpl; intuition.
Qed.

(* ------------------------------------------------------------------ *)
(** ** game_engine.py: class Deck *)

Import GameEngine.

(** [_initialize_deck] builds 116 cards: two copies of each of the 55
    rank and suit pairs, six jokers, and no other card. *)
Theorem initialize_deck_contents :
  length initialize_deck = 116 /\
  (forall c : Card,
     length (filter (card_eqb c) initialize_deck) =
     (if rank_eqb (rank c) Joker then (if suit_eqb (suit c) JOKER then 6 else 0)
      else if suit_eqb (suit c) JOKER then 0 else 2)).
Proof.
  split; [reflexivity|].
  intros [r s]; destruct r, s; vm_compute; reflexivity.
Qed.

Lemma py_pop_app {A : Type} (l : list A) (x : A) : py_pop (l ++ [x]) = Some (x, l).
Proof. unfold py_pop; rewrite rev_app_distr; simpl; rewrite rev_involutive; reflexivity. Qed.

Lemma py_pop_nil {A : Type} : py_pop (@nil A) = None.
Proof. reflexivity. Qed.

Lemma deal_loop_spec (n : nat) (d : Deck) (dealt : list Card) :
  n <= length (cards d) ->
  exists dd rest, deal_loop n d dealt = Done (dealt ++ dd, mkDeck rest (discard_pile d)) /\
                  length dd = n /\ cards d = rest ++ rev dd.
Proof.
  revert d dealt; induction n as [|n IH]; intros [cs disc] dealt Hn; simpl in *.
  - exists [], cs; rewrite app_nil_r; repeat split; simpl; auto; rewrite app_nil_r; reflexivity.
  - destruct cs as [|c0 cs0 _] using rev_ind; [simpl in Hn; lia|].
    rewrite py_pop_app.
    rewrite length_app in Hn; simpl in Hn.
    destruct (IH (mkDeck cs0 disc) (dealt ++ [c0])) as [dd [rest [E [Hl Hc]]]]; [simpl; lia|].
    exists (c0 :: dd), rest; rewrite E, <- app_assoc; simpl.
    split; [reflexivity|]; split; [simpl; lia|].
    simpl in Hc; rewrite Hc, <- app_assoc; reflexivity.
Qed.

Lemma deal_facts (d : Deck) (n : Z) :
  ((Z.of_nat (length (cards d)) < n)%Z ->
     deal d n = raise_value_error ("Not enough cards in deck: " ++ string_of_nat (length (cards d))
                                   ++ " < " ++ string_of_Z n)%string) /\
  ((n <= Z.of_nat (length (cards d)))%Z ->
     exists dealt rest, deal d n = Done (dealt, mkDeck rest (discard_pile d)) /\
                        length dealt = Z.to_nat n /\ cards d = rest ++ rev dealt).
Proof.
  unfold deal; split; intros Hn.
  - apply Z.ltb_lt in Hn; rewrite Hn; reflexivity.
  - assert (Hb : (Z.of_nat (length (cards d)) <? n)%Z = false) by (apply Z.ltb_ge; lia).
    rewrite Hb.
    destruct (deal_loop_spec (Z.to_nat n) d []) as [dd [rest [E [Hl Hc]]]]; [lia|].
    exists dd, rest; rewrite E; auto.
Qed.

(** [Deck.deal n] raises [ValueError] when fewer than [n] cards are left;
    otherwise it pops [n] cards from the top (the end of the list), returns
    them in the order popped, and leaves the discard pile alone. *)
Theorem deal_spec (d : Deck) (n : Z) :
  ((Z.of_nat (length (cards d)) < n)%Z ->
     deal d n = raise_value_error ("Not enough cards in deck: " ++ string_of_nat (length (cards d))
                                   ++ " < " ++ string_of_Z n)%string) /\
  ((n <= Z.of_nat (length (cards d)))%Z ->
     exists dealt rest, deal d n = Done (dealt, mkDeck rest (discard_pile d)) /\
                        length dealt = Z.to_nat n /\ cards d = rest ++ rev dealt).
Proof. exact (deal_facts d n). Qed.

Lemma draw_facts (d : Deck) :
  (cards d = [] /\ draw d = raise_value_error "Deck is empty"%string) \/
  (exists c rest, cards d = rest ++ [c] /\ draw d = Done (c, mkDeck rest (discard_pile d))).
Proof.
  unfold draw; destruct (cards d) as [|c0 cs] eqn:E; [left; auto|right].
  destruct (exists_last (l := c0 :: cs) ltac:(discriminate)) as [rest [c Ec]].
  exists c, rest; split; [exact Ec|]; rewrite Ec, py_pop_app.
  destruct rest; reflexivity.
Qed.

(** [Deck.draw] raises [ValueError] on an empty deck; otherwise it
    returns the last card of the deck and removes it. *)
Theorem draw_spec (d : Deck) :
  (cards d = [] /\ draw d = raise_value_error "Deck is empty"%string) \/
  (exists c rest, cards d = rest ++ [c] /\ draw d = Done (c, mkDeck rest (discard_pile d))).
Proof. exact (draw_facts d). Qed.

Lemma py_index_last {A : Type} (l : list A) (x : A) : py_index (l ++ [x]) (-1) = Some x.
Proof.
  unfold py_index; simpl; rewrite length_app; simpl.
  replace (Z.to_nat (Z.of_nat (length l + 1) + -1)) with (length l) by lia.
  rewrite nth_error_app2 by lia; rewrite Nat.sub_diag.
  replace (- Z.of_nat (length l + 1) <=? -1)%Z with true by (symmetry; apply Z.leb_le; lia).
  reflexivity.
Qed.

(** The discard pile is a stack: after [add_to_discard d c], [peek_discard]
    shows [c] and [draw_from_discard] returns [c] and gives back [d]; on an
    empty pile [peek_discard] is [None] and [draw_from_discard] raises
    [ValueError]. *)
Theorem discard_pile_stack (d : Deck) (c : Card) :
  peek_discard (add_to_discard d c) = Some c /\
  draw_from_discard (add_to_discard d c) = Done (c, d) /\
  (discard_pile d = [] ->
     peek_discard d = None /\
     draw_from_discard d = raise_value_error "Discard pile is empty"%string).
Proof.
  destruct d as [cs disc]; unfold peek_discard, draw_from_discard, add_to_discard; simpl.
  split; [|split].
  - rewrite py_index_last.
    destruct (disc ++ [c]) eqn:E; [destruct disc; discriminate | reflexivity].
  - rewrite py_pop_app; destruct disc; reflexivity.
  - intros ->; split; reflexivity.
Qed.

(** [Deck.cards_remaining() > 0] is exactly the condition under which
    [draw] succeeds, and [peek_discard() is not None] exactly the one under
    which [draw_from_discard] succeeds: the two guards of [GameEngine]
    never let a draw raise. *)
Theorem draw_guards_exact (st : GameState) :
  (can_draw_from_deck st = true <-> exists c d', draw (deck st) = Done (c, d')) /\
  (can_draw_from_discard st = true <-> exists c d', draw_from_discard (deck st) = Done (c, d')).
Proof.
  split.
  - unfold can_draw_from_deck, cards_remaining.
    destruct (draw_facts (deck st)) as [[E Hd] | [c [rest [E Hd]]]]; rewrite E, Hd.
    + split; [discriminate | intros [? [? H]]; discriminate].
    + rewrite length_app; simpl; split; [intros _; eauto | intros _; apply Nat.ltb_lt; lia].
  - unfold can_draw_from_discard, peek_discard, draw_from_discard.
    destruct (discard_pile (deck st)) as [|x l] eqn:E.
    + split; [discriminate | intros [? [? H]]; discriminate].
    + destruct (exists_last (l := x :: l) ltac:(discriminate)) as [rest [c Ec]].
      rewrite Ec, py_pop_app, py_index_last.
      split; [intros _; eauto | intros _; reflexivity].
Qed.

(* ------------------------------------------------------------------ *)
(** ** game_engine.py: class Player *)

Lemma py_remove_spec (x : Card) (l : list Card) :
  (~ In x l /\ py_remove x l = None) \/
  (exists pre post, l = pre ++ x :: post /\ ~ In x pre /\ py_remove x l = Some (pre ++ post)).
Proof.
  induction l as [|y l IH]; simpl; [left; auto|].
  destruct (card_eqb y x) eqn:E.
  - apply card_eqb_spec in E; subst y; right; exists [], l; simpl; auto.
  - assert (Hyx : y <> x) by (intros Exy; subst; rewrite (proj2 (card_eqb_spec x x) eq_refl) in E;
                               discriminate).
    destruct IH as [[Hn ->] | [pre [post [El [Hn ->]]]]].
    + left; split; [intros [H | H]; contradiction | reflexivity].
    + right; exists (y :: pre), post; subst l; simpl; split; [reflexivity|]; split; [|reflexivity].
      intros [H | H]; contradiction.
Qed.

Lemma remove_card_facts (p : Player) (c : Card) :
  (~ In c (hand p) ->
     remove_card p c = raise_value_error "list.remove(x): x not in list"%string) /\
  (In c (hand p) ->
     exists pre post, hand p = pre ++ c :: post /\ ~ In c pre /\
       remove_card p c = Done (mkPlayer (name p) (pre ++ post) (score p) (is_human p))).
Proof.
  unfold remove_card.
  destruct (py_remove_spec c (hand p)) as [[Hn ->] | [pre [post [E [Hn ->]]]]].
  - split; [reflexivity | intros H; contradiction].
  - split; [intros H; exfalso; apply H; rewrite E; apply in_or_app; right; left; reflexivity|].
    intros _; exists pre, post; auto.
Qed.

(** [Player.remove_card] raises [ValueError] when the card is not in the
    hand; otherwise it removes the first card equal to it and keeps the
    order of the others. *)
Theorem remove_card_spec (p : Player) (c : Card) :
  (~ In c (hand p) ->
     remove_card p c = raise_value_error "list.remove(x): x not in list"%string) /\
  (In c (hand p) ->
     exists pre post, hand p = pre ++ c :: post /\ ~ In c pre /\
       remove_card p c = Done (mkPlayer (name p) (pre ++ post) (score p) (is_human p))).
Proof. exact (remove_card_facts p c). Qed.

Lemma key_leb_total (a b : Z * Z) : key_leb a b = false -> key_leb b a = true.
Proof.
  unfold key_leb; destruct a as [a1 a2], b as [b1 b2]; simpl.
  rewrite !orb_true_iff, !orb_false_iff, !andb_true_iff, !andb_false_iff,
    !Z.ltb_lt, !Z.ltb_ge, !Z.eqb_eq, !Z.eqb_neq, !Z.leb_le, !Z.leb_gt; lia.
Qed.

Lemma key_leb_trans (a b c : Z * Z) : key_leb a b = true -> key_leb b c = true -> key_leb a c = true.
Proof.
  unfold key_leb; destruct a as [a1 a2], b as [b1 b2], c as [c1 c2]; simpl.
  rewrite !orb_true_iff, !andb_true_iff, !Z.ltb_lt, !Z.eqb_eq, !Z.leb_le; lia.
Qed.

Lemma key_leb_antisym (a b : Z * Z) : key_leb a b = true -> key_leb b a = true -> a = b.
Proof.
  unfold key_leb; destruct a as [a1 a2], b as [b1 b2]; simpl.
  rewrite !orb_true_iff, !andb_true_iff, !Z.ltb_lt, !Z.eqb_eq, !Z.leb_le; intros H1 H2.
  f_equal; lia.
Qed.

(** The sort key tells all cards apart. *)
Lemma sort_key_inj (a b : Card) : sort_key a = sort_key b -> a = b.
Proof.
  destruct a as [ra sa], b as [rb sb]; unfold sort_key; simpl; intros H.
  injection H as Hs Hr.
  assert (sa = sb) as -> by (destruct sa, sb; vm_compute in Hs; congruence).
  destruct ra, rb; try reflexivity; vm_compute in Hr; discriminate.
Qed.

Lemma insert_card_perm (x : Card) (l : list Card) : Permutation (insert_card x l) (x :: l).
Proof.
  induction l as [|y l IH]; simpl; [reflexivity|].
  destruct (key_leb (sort_key x) (sort_key y)); [reflexivity|].
  rewrite IH; apply perm_swap.
Qed.

Lemma sort_cards_perm (l : list Card) : Permutation (sort_cards l) l.
Proof.
  induction l as [|x l IH]; simpl; [reflexivity|].
  rewrite insert_card_perm; apply perm_skip, IH.
Qed.

Lemma insert_card_sorted (x : Card) (l : list Card) :
  Sorted key_le l -> Sorted key_le (insert_card x l).
Proof.
  unfold key_le; induction 1 as [|y l Hl IH Hhd]; simpl; [repeat constructor|].
  destruct (key_leb (sort_key x) (sort_key y)) eqn:Exy.
  - constructor; [constructor; assumption | constructor; assumption].
  - apply key_leb_total in Exy.
    constructor; [exact IH|].
    destruct l as [|z l]; simpl; [constructor; exact Exy|].
    inversion Hhd; subst.
    destruct (key_leb (sort_key x) (sort_key z)); constructor; assumption.
Qed.

Lemma sort_cards_sorted (l : list Card) : Sorted key_le (sort_cards l).
Proof. induction l; simpl; [constructor | apply insert_card_sorted; assumption]. Qed.

(** [Player.sort_hand] rearranges the hand into the order of the key
    [(suit position, rank position)] and changes nothing else. *)
Theorem sort_hand_spec (p : Player) :
  Permutation (hand (sort_hand p)) (hand p) /\
  Sorted (fun a b => key_leb (sort_key a) (sort_key b) = true) (hand (sort_hand p)) /\
  name (sort_hand p) = name p /\ score (sort_hand p) = score p /\
  is_human (sort_hand p) = is_human p.
Proof.
  split; [apply sort_cards_perm|]; split; [apply sort_cards_sorted|].
  repeat split.
Qed.

Lemma sorted_perm_eq {A : Type} (R : A -> A -> Prop)
    (Htr : forall x y z, R x y -> R y z -> R x z)
    (Hanti : forall x y, R x y -> R y x -> x = y) (l1 l2 : list A) :
  Sorted R l1 -> Sorted R l2 -> Permutation l1 l2 -> l1 = l2.
Proof.
  intros H1 H2; apply Sorted_StronglySorted in H1; [|exact Htr];
    apply Sorted_StronglySorted in H2; [|exact Htr].
  revert l2 H2; induction H1 as [|a t1 Ht1 IH Ha]; intros l2 H2 Hp.
  - apply Permutation_nil in Hp; subst; reflexivity.
  - destruct l2 as [|b t2]; [apply Permutation_sym, Permutation_nil in Hp; discriminate|].
    apply StronglySorted_inv in H2 as [Ht2 Hb].
    assert (Hab : a = b).
    { assert (Ha2 : In a (b :: t2)) by (apply (Permutation_in _ Hp); left; reflexivity).
      assert (Hb1 : In b (a :: t1)) by (apply (Permutation_in _ (Permutation_sym Hp)); left; reflexivity).
      destruct Ha2 as [-> | Ha2]; [reflexivity|].
      destruct Hb1 as [-> | Hb1]; [reflexivity|].
      rewrite Forall_forall in Ha, Hb; apply Hanti; [apply Ha, Hb1 | apply Hb, Ha2]. }
    subst b; f_equal; apply IH; [exact Ht2 | apply (Permutation_cons_inv Hp)].
Qed.

(** The hand that [sort_hand] produces depends only on which cards the hand
    holds, not on the order in which they were dealt. *)
Theorem sort_hand_canonical (p q : Player) :
  Permutation (hand p) (hand q) -> hand (sort_hand p) = hand (sort_hand q).
Proof.
  intros Hp; simpl; apply (sorted_perm_eq key_le).
  - unfold key_le; intros x y z; apply key_leb_trans.
  - unfold key_le; intros x y Hxy Hyx; apply sort_key_inj, key_leb_antisym; assumption.
  - apply sort_cards_sorted.
  - apply sort_cards_sorted.
  - rewrite !sort_cards_perm; exact Hp.
Qed.

Lemma sort_hand_canonical_witness :
  Permutation (hand (mkPlayer "A" [mkCard R9 STARS; create_joker; mkCard R3 SPADES] 0 false))
              (hand (mkPlayer "A" [create_joker; mkCard R3 SPADES; mkCard R9 STARS] 0 false)) /\
  hand (sort_hand (mkPlayer "A" [mkCard R9 STARS; create_joker; mkCard R3 SPADES] 0 false)) =
  hand (sort_hand (mkPlayer "A" [create_joker; mkCard R3 SPADES; mkCard R9 STARS] 0 false)).
Proof.
  assert (Hp : Permutation (hand (mkPlayer "A" [mkCard R9 STARS; create_joker; mkCard R3 SPADES] 0 false))
              (hand (mkPlayer "A" [create_joker; mkCard R3 SPADES; mkCard R9 STARS] 0 false)))
    by (simpl; apply (Permutation_cons_append [create_joker; mkCard R3 SPADES] (mkCard R9 STARS))).
  split; [exact Hp | apply sort_hand_canonical, Hp].
Defined.

(* ------------------------------------------------------------------ *)
(** ** game_engine.py: class GameState *)

(** [next_player] raises [ZeroDivisionError] when there are no players;
    otherwise the new index lies in [0 .. len(players) - 1], so that
    [current_player] then succeeds, and nothing else changes. *)
Theorem next_player_spec (st : GameState) :
  (players st = [] -> next_player st = Raised ZeroDivisionError) /\
  (players st <> [] ->
     exists st', next_player st = Done st' /\
       players st' = players st /\ deck st' = deck st /\ round_number st' = round_number st /\
       (0 <= current_player_index st' < Z.of_nat (length (players st)))%Z /\
       exists p, current_player st' = Done p /\ In p (players st)).
Proof.
  unfold next_player; split; intros Hp.
  - rewrite Hp; reflexivity.
  - assert (Hl : length (players st) <> 0) by (destruct (players st); [contradiction | discriminate]).
    apply Nat.eqb_neq in Hl; rewrite Hl; apply Nat.eqb_neq in Hl.
    eexists; split; [reflexivity|]; simpl; split; [reflexivity|]; split; [reflexivity|].
    split; [reflexivity|].
    assert (Hm : (0 <= (current_player_index st + 1) mod Z.of_nat (length (players st))
                  < Z.of_nat (length (players st)))%Z) by (apply Z.mod_pos_bound; lia).
    split; [exact Hm|].
    unfold current_player, py_index; simpl.
    replace ((0 <=? (current_player_index st + 1) mod Z.of_nat (length (players st)))%Z) with true
      by (symmetry; apply Z.leb_le; lia).
    destruct (nth_error (players st) (Z.to_nat ((current_player_index st + 1)
                                                 mod Z.of_nat (length (players st))))) eqn:E.
    + exists p; split; [reflexivity | apply nth_error_In in E; exact E].
    + apply nth_error_None in E; lia.
Qed.

(** Calling [next_player] [k >= 1] times moves the index to
    [(i + k) mod len(players)]: after [len(players)] calls the turn is back
    with the player who had it. *)
Theorem next_player_iter (st : GameState) (k : nat) :
  players st <> [] -> 1 <= k ->
  Nat.iter k (fun r => rbind r next_player) (Done st) =
  Done (mkGameState (round_number st) (players st) (deck st)
          ((current_player_index st + Z.of_nat k) mod Z.of_nat (length (players st)))%Z
          (round_over st) (game_over st)).
Proof.
  intros Hp Hk.
  assert (Hl : (length (players st) =? 0) = false)
    by (apply Nat.eqb_neq; destruct (players st); [contradiction | discriminate]).
  induction k as [|k IH]; [lia|].
  destruct k as [|k].
  - simpl; unfold next_player; rewrite Hl; reflexivity.
  - change (Nat.iter (S (S k)) (fun r => rbind r next_player) (Done st))
      with (rbind (Nat.iter (S k) (fun r => rbind r next_player) (Done st)) next_player).
    rewrite IH by lia; simpl; unfold next_player; simpl; rewrite Hl.
    f_equal; f_equal.
    rewrite Zplus_mod_idemp_l; f_equal; lia.
Qed.

Lemma next_player_iter_witness :
  players (engine_init [("A"%string, true); ("B"%string, false)]) <> [] /\ 1 <= 2 /\
  Nat.iter 2 (fun r => rbind r next_player) (Done (engine_init [("A"%string, true); ("B"%string, false)])) =
  Done (mkGameState 1 (players (engine_init [("A"%string, true); ("B"%string, false)])) new_deck
          ((0 + Z.of_nat 2) mod Z.of_nat 2)%Z false false).
Proof.
  split; [discriminate|]; split; [lia|].
  apply (next_player_iter (engine_init [("A"%string, true); ("B"%string, false)]) 2);
    [discriminate | lia].
Defined.

Lemma deal_players_spec (n : Z) (d : Deck) (ps : list Player) :
  length ps * Z.to_nat n <= length (cards d) ->
  exists ps' rest,
    deal_players n d ps = Done (ps', mkDeck rest (discard_pile d)) /\
    map name ps' = map name ps /\ map score ps' = map score ps /\
    map is_human ps' = map is_human ps /\
    Forall (fun p => length (hand p) = Z.to_nat n /\ Sorted key_le (hand p)) ps' /\
    Permutation (rest ++ concat (map hand ps')) (cards d) /\
    length rest = length (cards d) - length ps * Z.to_nat n.
Proof.
  revert d; induction ps as [|p ps IH]; intros d Hn; simpl in *.
  - exists [], (cards d); destruct d; simpl; repeat split; auto; [rewrite app_nil_r; reflexivity | lia].
  - destruct (proj2 (deal_facts d n)) as [dealt [r1 [Ed [Hl Hc]]]]; [lia|].
    rewrite Ed; simpl.
    destruct (IH (mkDeck r1 (discard_pile d))) as [ps' [rest [Eps [Hnm [Hsc [Hhu [Hf [Hperm Hlen]]]]]]]].
    { simpl; rewrite Hc, length_app, length_rev in Hn; lia. }
    rewrite Eps; simpl.
    exists (sort_hand (mkPlayer (name p) dealt (score p) (is_human p)) :: ps'), rest.
    split; [reflexivity|]; simpl.
    split; [f_equal; exact Hnm|]; split; [f_equal; exact Hsc|]; split; [f_equal; exact Hhu|].
    split; [constructor; [split; [simpl; rewrite (Permutation_length (sort_cards_perm dealt)); exact Hl
                                 | apply sort_cards_sorted] | exact Hf]|].
    split.
    + rewrite Hc; simpl in Hperm.
      rewrite (sort_cards_perm dealt), app_assoc, (Permutation_app_comm rest dealt), <- app_assoc.
      rewrite (Permutation_app_comm dealt), Hperm, <- (Permutation_rev dealt); reflexivity.
    + simpl in Hlen; rewrite Hlen, Hc, length_app, length_rev; lia.
Qed.

(** [start_new_round] for a round up to 11, with a deck shuffled from the
    fresh 116 cards and enough cards for every hand plus one: each player
    keeps name, score and kind and gets a sorted hand of [round + 2]
    cards, one card starts the discard pile, no card is lost or made, the
    first player has the turn and the round is open. *)
Theorem start_new_round_deal (st : GameState) (shuffled : list Card)
    (Hr : (round_number st <= 11)%Z) (Hsh : Permutation shuffled initialize_deck)
    (Hn : length (players st) * Z.to_nat (round_number st + 2) < 116) :
  exists st', start_new_round st shuffled = Done st' /\
    map name (players st') = map name (players st) /\
    map score (players st') = map score (players st) /\
    map is_human (players st') = map is_human (players st) /\
    Forall (fun p => length (hand p) = Z.to_nat (round_number st + 2) /\ Sorted key_le (hand p))
      (players st') /\
    length (discard_pile (deck st')) = 1 /\
    Permutation (cards (deck st') ++ discard_pile (deck st') ++ concat (map hand (players st')))
      initialize_deck /\
    current_player_index st' = 0%Z /\ round_over st' = false /\
    round_number st' = round_number st /\ game_over st' = game_over st.
Proof.
  unfold start_new_round.
  replace (11 <? round_number st)%Z with false by (symmetry; apply Z.ltb_ge; lia).
  cbv zeta; unfold get_cards_per_hand.
  pose proof (Permutation_length Hsh) as Hlen; change (length initialize_deck) with 116 in Hlen.
  destruct (deal_players_spec (round_number st + 2) (mkDeck shuffled [])
              (map (fun p => mkPlayer (name p) [] (score p) (is_human p)) (players st)))
    as [ps' [rest [Ed [Hnm [Hsc [Hhu [Hf [Hperm Hl]]]]]]]].
  { rewrite length_map; simpl; lia. }
  rewrite Ed; simpl.
  rewrite length_map in Hl; simpl in Hl.
  destruct (draw_facts (mkDeck rest [])) as [[E _] | [c [r0 [Er Edr]]]]; simpl in *.
  - subst rest; simpl in Hl; lia.
  - rewrite Edr; simpl.
    eexists; split; [reflexivity|]; simpl.
    split; [rewrite Hnm, map_map; reflexivity|].
    split; [rewrite Hsc, map_map; reflexivity|].
    split; [rewrite Hhu, map_map; reflexivity|].
    split; [exact Hf|]; split; [reflexivity|].
    split; [|repeat split].
    rewrite Er in Hperm; rewrite <- Hsh, <- Hperm, <- app_assoc; reflexivity.
Qed.

Lemma start_new_round_deal_witness :
  exists st',
    start_new_round (engine_init [("A"%string, true); ("B"%string, false)]) initialize_deck = Done st' /\
    Forall (fun p => length (hand p) = 3 /\ Sorted key_le (hand p)) (players st') /\
    length (discard_pile (deck st')) = 1.
Proof.
  destruct (start_new_round_deal (engine_init [("A"%string, true); ("B"%string, false)])
              initialize_deck) as [st' [E [_ [_ [_ [Hf [Hd _]]]]]]].
  - simpl; lia.
  - reflexivity.
  - simpl; lia.
  - exists st'; split; [exact E|]; split; [exact Hf | exact Hd].
Defined.

Lemma deal_players_short (n : Z) (d : Deck) (ps : list Player) :
  length (cards d) < length ps * Z.to_nat n ->
  exists msg, deal_players n d ps = raise_value_error msg.
Proof.
  revert d; induction ps as [|p ps IH]; intros d Hn; simpl in *; [lia|].
  destruct (Z_lt_le_dec (Z.of_nat (length (cards d))) n) as [Hlt | Hge].
  - rewrite (proj1 (deal_facts d n) Hlt); simpl; eexists; reflexivity.
  - destruct (proj2 (deal_facts d n) Hge) as [dealt [r1 [Ed [Hl Hc]]]].
    rewrite Ed; simpl.
    destruct (IH (mkDeck r1 (discard_pile d))) as [msg Em].
    { simpl; rewrite Hc, length_app, length_rev in Hn; lia. }
    rewrite Em; exists msg; reflexivity.
Qed.

(** [start_new_round] for a round up to 11 raises [ValueError] when the
    deck holds fewer cards than the hands need plus one for the discard
    pile: [deal] or [draw] fails. *)
Theorem start_new_round_short_deck (st : GameState) (shuffled : list Card)
    (Hr : (round_number st <= 11)%Z)
    (Hn : length shuffled < length (players st) * Z.to_nat (round_number st + 2) + 1) :
  exists msg, start_new_round st shuffled = raise_value_error msg.
Proof.
  unfold start_new_round.
  replace (11 <? round_number st)%Z with false by (symmetry; apply Z.ltb_ge; lia).
  cbv zeta; unfold get_cards_per_hand.
  set (cleared := map (fun p => mkPlayer (name p) [] (score p) (is_human p)) (players st)).
  assert (Hc : length cleared = length (players st)) by apply length_map.
  destruct (Nat.lt_ge_cases (length shuffled) (length cleared * Z.to_nat (round_number st + 2)))
    as [Hlt | Hge].
  - destruct (deal_players_short (round_number st + 2) (mkDeck shuffled []) cleared Hlt) as [msg E].
    rewrite E; exists msg; reflexivity.
  - destruct (deal_players_spec (round_number st + 2) (mkDeck shuffled []) cleared Hge)
      as [ps' [rest [Ed [_ [_ [_ [_ [_ Hl]]]]]]]].
    rewrite Ed; simpl in *.
    assert (rest = []) as -> by (destruct rest; [reflexivity | simpl in Hl; lia]).
    exists "Deck is empty"%string; reflexivity.
Qed.

Lemma start_new_round_short_deck_witness :
  (round_number (mkGameState 11 (repeat (mkPlayer "P" [] 0 false) 9) new_deck 0 false false) <= 11)%Z /\
  exists msg, start_new_round (mkGameState 11 (repeat (mkPlayer "P" [] 0 false) 9) new_deck 0 false false)
                initialize_deck = raise_value_error msg.
Proof.
  split; [simpl; lia|].
  apply start_new_round_short_deck; simpl; lia.
Defined.

(* ------------------------------------------------------------------ *)
(** ** game_engine.py: class GameEngine *)

Lemma update_nth_app {A : Type} (f : A -> A) (pre post : list A) (x : A) :
  update_nth (length pre) f (pre ++ x :: post) = pre ++ f x :: post.
Proof. induction pre as [|y pre IH]; simpl; [reflexivity | rewrite IH; reflexivity]. Qed.

Lemma py_norm_index_length {A B : Type} (l : list A) (l' : list B) (i : Z) :
  length l = length l' -> py_norm_index l i = py_norm_index l' i.
Proof. unfold py_norm_index; intros ->; reflexivity. Qed.

Lemma py_norm_index_index {A : Type} (l : list A) (i : Z) (n : nat) :
  py_norm_index l i = Some n -> py_index l i = nth_error l n /\ n < length l.
Proof.
  unfold py_norm_index, py_index.
  destruct (Z.leb_spec 0 i).
  - destruct (Z.ltb_spec i (Z.of_nat (length l))); intros Hs; inversion Hs; subst; split; [reflexivity | lia].
  - destruct (Z.leb_spec (- Z.of_nat (length l)) i); intros Hs; inversion Hs; subst; split; [reflexivity | lia].
Qed.

Lemma py_index_norm {A : Type} (l : list A) (i : Z) (x : A) :
  py_index l i = Some x -> exists n, py_norm_index l i = Some n /\ nth_error l n = Some x.
Proof.
  unfold py_norm_index, py_index; intros Hx.
  destruct (Z.leb_spec 0 i) as [H0 | H0].
  - destruct (Z.ltb_spec i (Z.of_nat (length l))) as [H1 | H1].
    + exists (Z.to_nat i); auto.
    + assert (H2 : length l <= Z.to_nat i) by lia; apply nth_error_None in H2; congruence.
  - destruct (Z.leb_spec (- Z.of_nat (length l)) i); [eauto | discriminate].
Qed.

Lemma py_norm_index_none {A : Type} (l : list A) (i : Z) :
  py_norm_index l i = None -> py_index l i = None.
Proof.
  unfold py_norm_index, py_index.
  destruct (Z.leb_spec 0 i).
  - destruct (Z.ltb_spec i (Z.of_nat (length l))); intros Hs; [discriminate|].
    apply nth_error_None; lia.
  - destruct (Z.leb_spec (- Z.of_nat (length l)) i); intros Hs; [discriminate | reflexivity].
Qed.

(** The current player sits at a position of the player list, which
    [update_current] rewrites and which [current_player] reads back. *)
Lemma current_player_split (st : GameState) (p : Player) :
  current_player st = Done p ->
  exists pre post, players st = pre ++ p :: post /\
    py_norm_index (players st) (current_player_index st) = Some (length pre).
Proof.
  unfold current_player; destruct (py_index (players st) (current_player_index st)) as [q|] eqn:E;
    intros H; inversion H; subst q.
  destruct (py_index_norm _ _ _ E) as [n [En Hn]].
  destruct (nth_error_split _ _ Hn) as [pre [post [Ep Hl]]].
  exists pre, post; subst n; auto.
Qed.

Lemma update_current_split (st : GameState) (pre post : list Player) (p : Player)
    (f : Player -> Player) :
  players st = pre ++ p :: post ->
  py_norm_index (players st) (current_player_index st) = Some (length pre) ->
  update_current st f = Done (set_players st (pre ++ f p :: post)).
Proof.
  intros Ep Ei; unfold update_current; rewrite Ei, Ep, update_nth_app; reflexivity.
Qed.

Lemma current_player_at (st : GameState) (pre post : list Player) (q : Player) :
  players st = pre ++ q :: post ->
  py_norm_index (players st) (current_player_index st) = Some (length pre) ->
  current_player st = Done q.
Proof.
  intros Ep Ei; unfold current_player.
  destruct (py_norm_index_index _ _ _ Ei) as [-> _].
  rewrite Ep, nth_error_app2, Nat.sub_diag by lia; reflexivity.
Qed.

Lemma current_player_error (st : GameState) (e : EngineError) (f : Player -> Player) :
  current_player st = Raised e -> update_current st f = Raised e.
Proof.
  unfold current_player, update_current; intros He.
  destruct (py_norm_index (players st) (current_player_index st)) as [n|] eqn:E.
  - destruct (py_norm_index_index _ _ _ E) as [Ei Hn]; rewrite Ei in He.
    destruct (nth_error_Some (players st) n) as [_ Hs]; specialize (Hs Hn).
    destruct (nth_error (players st) n); [discriminate | contradiction].
  - rewrite (py_norm_index_none _ _ E) in He; inversion He; reflexivity.
Qed.

Lemma concat_hands_split (pre post : list Player) (p q : Player) :
  Permutation (concat (map hand (pre ++ q :: post)) ++ hand p)
              (concat (map hand (pre ++ p :: post)) ++ hand q).
Proof.
  rewrite !map_app, !concat_app; simpl.
  rewrite <- !app_assoc.
  apply Permutation_app_head.
  rewrite (Permutation_app_comm (hand q) (concat (map hand post) ++ hand p)).
  rewrite (Permutation_app_comm (hand p) (concat (map hand post) ++ hand q)).
  rewrite <- !app_assoc; apply Permutation_app_head.
  apply Permutation_app_comm.
Qed.

Lemma card_eq_dec (a b : Card) : {a = b} + {a <> b}.
Proof. destruct (card_eqb a b) eqn:E; [left; apply card_eqb_spec, E | right; intros H; apply card_eqb_spec in H; congruence]. Defined.

(** Card lists are compared as multisets by counting. *)
Ltac perm_by_count :=
  apply (Permutation_count_occ card_eq_dec); intros ?x;
  repeat progress (rewrite ?count_occ_app, ?map_app, ?concat_app, ?app_nil_l; simpl);
  repeat match goal with |- context [card_eq_dec ?a ?b] => destruct (card_eq_dec a b) end;
  lia.

Lemma rbind_done {A B : Type} (m : Res A) (k : A -> Res B) (v : B) :
  rbind m k = Done v -> exists a, m = Done a /\ k a = Done v.
Proof. destruct m as [a|e]; simpl; [eauto | discriminate]. Qed.

Lemma update_current_done (st : GameState) (f : Player -> Player) (st' : GameState) :
  update_current st f = Done st' ->
  exists p pre post, current_player st = Done p /\ players st = pre ++ p :: post /\
    st' = set_players st (pre ++ f p :: post) /\ current_player st' = Done (f p).
Proof.
  intros H; destruct (current_player st) as [p|e] eqn:Ecp.
  - destruct (current_player_split st p Ecp) as [pre [post [Ep Ei]]].
    rewrite (update_current_split st pre post p f Ep Ei) in H; inversion H; subst st'.
    exists p, pre, post; split; [reflexivity|]; split; [exact Ep|]; split; [reflexivity|].
    apply (current_player_at _ pre post); [reflexivity|].
    simpl; rewrite <- Ei; apply py_norm_index_length; rewrite Ep, !length_app; reflexivity.
  - rewrite (current_player_error st e f Ecp) in H; discriminate.
Qed.

Lemma draw_card_facts (st : GameState) (from_discard : bool) (c : Card) (st' : GameState) :
  draw_card st from_discard = Done (c, st') ->
  exists p, current_player st = Done p /\ current_player st' = Done (add_card p c) /\
    Permutation (Spec.cards_in_play st') (Spec.cards_in_play st) /\
    (if from_discard
     then discard_pile (deck st) = discard_pile (deck st') ++ [c] /\ cards (deck st') = cards (deck st)
     else cards (deck st) = cards (deck st') ++ [c] /\ discard_pile (deck st') = discard_pile (deck st)) /\
    round_number st' = round_number st /\ current_player_index st' = current_player_index st /\
    round_over st' = round_over st /\ game_over st' = game_over st.
Proof.
  unfold draw_card; intros H.
  apply rbind_done in H as [[c0 d0] [Ed H]].
  apply rbind_done in H as [st1 [Eu H]]; simpl in *; inversion H; subst c st1; clear H.
  apply update_current_done in Eu as [p [pre [post [Ecp [Ep [-> Ecp']]]]]].
  exists p; split; [exact Ecp|]; split; [exact Ecp'|].
  unfold Spec.cards_in_play; simpl in Ep |- *; rewrite Ep.
  destruct from_discard.
  - unfold draw_from_discard in Ed.
    destruct (discard_pile (deck st)) as [|x l] eqn:E; [discriminate|].
    destruct (exists_last (l := x :: l) ltac:(discriminate)) as [rest [c1 Ec]].
    rewrite Ec, py_pop_app in Ed; inversion Ed; subst; clear Ed.
    split; [rewrite Ec; perm_by_count|]; simpl; repeat split; auto.
  - unfold draw in Ed.
    destruct (cards (deck st)) as [|x l] eqn:E; [discriminate|].
    destruct (exists_last (l := x :: l) ltac:(discriminate)) as [rest [c1 Ec]].
    rewrite Ec, py_pop_app in Ed; inversion Ed; subst; clear Ed.
    split; [rewrite Ec; perm_by_count|]; simpl; repeat split; auto.
Qed.



Lemma discard_card_facts (st : GameState) (card : Card) :
  (forall p, current_player st = Done p -> ~ In card (hand p) ->
     discard_card st card = raise_value_error "list.remove(x): x not in list"%string) /\
  (forall st', discard_card st card = Done st' ->
     exists p pre post, current_player st = Done p /\ hand p = pre ++ card :: post /\
       ~ In card pre /\
       current_player st' = Done (mkPlayer (name p) (pre ++ post) (score p) (is_human p)) /\
       discard_pile (deck st') = discard_pile (deck st) ++ [card] /\
       cards (deck st') = cards (deck st) /\
       Permutation (Spec.cards_in_play st') (Spec.cards_in_play st) /\
       round_number st' = round_number st /\ current_player_index st' = current_player_index st /\
       round_over st' = round_over st /\ game_over st' = game_over st).
Proof.
  unfold discard_card; split.
  - intros p Ecp Hn; rewrite Ecp; simpl.
    rewrite (proj1 (remove_card_facts p card) Hn); reflexivity.
  - intros st' H.
    apply rbind_done in H as [p [Ecp H]].
    apply rbind_done in H as [p' [Er H]].
    apply rbind_done in H as [st1 [Eu H]]; inversion H; subst st'; clear H.
    destruct (in_dec card_eq_dec card (hand p)) as [Hin | Hn];
      [|rewrite (proj1 (remove_card_facts p card) Hn) in Er; discriminate].
    destruct (proj2 (remove_card_facts p card) Hin) as [pre [post [Eh [Hnp Er']]]].
    rewrite Er' in Er; inversion Er; subst p'; clear Er Er'.
    apply update_current_done in Eu as [p0 [pl [pr [Ecp0 [Ep [-> Ecp']]]]]].
    rewrite Ecp in Ecp0; inversion Ecp0; subst p0; clear Ecp0.
    exists p, pre, post; split; [exact Ecp|]; split; [exact Eh|]; split; [exact Hnp|].
    split; [exact Ecp'|].
    unfold Spec.cards_in_play; simpl.
    split; [reflexivity|]; split; [reflexivity|].
    split; [rewrite Ep, !map_app; simpl; rewrite Eh; perm_by_count|].
    repeat split.
Qed.


(** Drawing a card and then discarding that same card never raises.  It
    leaves the current player's hand with the same cards as before, in a
    possibly different order, since [remove] takes the first copy of the
    card.  Taken from the draw pile, the card ends on top of the discard
    pile.  Taken from the discard pile, it goes back there and the deck is
    as it was. *)
Theorem draw_then_discard (st : GameState) (from_discard : bool) (c : Card) (st1 : GameState) :
  draw_card st from_discard = Done (c, st1) ->
  exists st2 p p2, discard_card st1 c = Done st2 /\
    current_player st = Done p /\ current_player st2 = Done p2 /\
    Permutation (hand p2) (hand p) /\
    (if from_discard then deck st2 = deck st
     else cards (deck st) = cards (deck st2) ++ [c] /\
          discard_pile (deck st2) = discard_pile (deck st) ++ [c]).
Proof.
  intros Hd.
  destruct (draw_card_facts st from_discard c st1 Hd)
    as [p [Ecp [Ecp1 [_ [Hdeck [_ [_ [_ _]]]]]]]].
  destruct (current_player_split _ _ Ecp1) as [pl [pr [Ep1 Ei1]]].
  assert (Hin : In c (hand (add_card p c))) by (simpl; apply in_or_app; right; left; reflexivity).
  destruct (proj2 (remove_card_facts (add_card p c) c) Hin) as [hl [hr [Eh [_ Er]]]].
  assert (Hst2 : exists st2, discard_card st1 c = Done st2).
  { unfold discard_card; rewrite Ecp1; simpl; rewrite Er; simpl.
    rewrite (update_current_split st1 pl pr (add_card p c) _ Ep1 Ei1); simpl; eauto. }
  destruct Hst2 as [st2 Ed2].
  destruct (proj2 (discard_card_facts st1 c) st2 Ed2)
    as [p1 [pre [post [Ecp1' [Eh1 [_ [Ecp2 [Edisc [Ecards _]]]]]]]]].
  rewrite Ecp1 in Ecp1'; inversion Ecp1'; subst p1; clear Ecp1'.
  exists st2, p, (mkPlayer (name (add_card p c)) (pre ++ post) (score (add_card p c))
                    (is_human (add_card p c))).
  split; [exact Ed2|]; split; [exact Ecp|]; split; [exact Ecp2|]; split.
  - simpl in Eh1 |- *; apply (Permutation_cons_inv (a := c)).
    rewrite (Permutation_cons_append (hand p) c), Eh1; apply Permutation_middle.
  - destruct from_discard; destruct Hdeck as [H1 H2].
    + destruct (deck st) as [cs ds] eqn:Edk; simpl in *.
      destruct (deck st2) as [cs2 ds2]; simpl in *; congruence.
    + split; congruence.
Qed.

Lemma draw_then_discard_witness :
  exists c st1, draw_card (engine_init [("A"%string, true)]) false = Done (c, st1) /\
  exists st2 p p2, discard_card st1 c = Done st2 /\
    current_player (engine_init [("A"%string, true)]) = Done p /\ current_player st2 = Done p2 /\
    Permutation (hand p2) (hand p).
Proof.
  destruct (draw_card (engine_init [("A"%string, true)]) false) as [[c st1]|e] eqn:E;
    [|vm_compute in E; discriminate].
  exists c, st1; split; [reflexivity|].
  destruct (draw_then_discard _ _ _ _ E) as [st2 [p [p2 [H1 [H2 [H3 [H4 _]]]]]]].
  exists st2, p, p2; auto.
Defined.



Lemma fold_meld_sizes (melds : list (list Card)) (a : nat) :
  fold_left (fun acc meld => acc + length meld) melds a = a + length (concat melds).
Proof.
  revert a; induction melds as [|m ms IH]; intros a; simpl; [lia|].
  rewrite IH, length_app; lia.
Qed.

Lemma card_set_eqb_spec (l1 l2 : list Card) :
  card_set_eqb l1 l2 = true <-> (forall c, In c l1 <-> In c l2).
Proof.
  unfold card_set_eqb; rewrite andb_true_iff, !forallb_forall.
  assert (Hex : forall c l, existsb (card_eqb c) l = true <-> In c l).
  { intros c l; rewrite existsb_exists; split.
    - intros [x [Hx E]]; apply card_eqb_spec in E; subst; exact Hx.
    - intros Hc; exists c; split; [exact Hc | apply card_eqb_spec; reflexivity]. }
  split.
  - intros [H1 H2] c; split; intros Hc; [apply Hex, H1, Hc | apply Hex, H2, Hc].
  - intros H; split; intros c Hc; apply Hex, H; [exact Hc|].
    apply H in Hc; apply H, Hc.
Qed.




(** [try_go_out] compares the cards of the melds with the hand as sets and
    counts them only in total: it can accept melds that are not a
    rearrangement of the hand, here using one seven of spades twice and
    one seven of clubs of the two in the hand. *)
Theorem try_go_out_ignores_multiplicity :
  exists p st', current_player Samples.state_set_check = Done p /\
    ~ Permutation (concat Samples.melds_set_check) (hand p) /\
    try_go_out Samples.state_set_check Samples.melds_set_check = Done ((true, None), st').
Proof.
  eexists; eexists; split; [reflexivity|]; split; [|vm_compute; reflexivity].
  intros Hp; pose proof (proj1 (Permutation_count_occ card_eq_dec _ _) Hp) as Hc; clear Hp.
  specialize (Hc (mkCard R7 CLUBS)); vm_compute in Hc; discriminate.
Qed.

Lemma hand_objects_snd_from (s : nat) (h : list Card) :
  map snd (combine (seq s (length h)) h) = h.
Proof.
  revert s; induction h as [|c h IH]; intros s; simpl; [reflexivity|].
  rewrite IH; reflexivity.
Qed.

Lemma hand_objects_snd (h : list Card) : map snd (hand_objects h) = h.
Proof. apply hand_objects_snd_from. Qed.

Lemma meld_valid_length (m : list Card) (w : Rank) : Spec.meld_valid m w = true -> 3 <= length m.
Proof.
  unfold Spec.meld_valid, run_ok, is_valid_book, is_valid_run.
  destruct (Nat.ltb_spec (length m) 3); [simpl; discriminate | lia].
Qed.

Lemma validate_all_melds_clean (ms : list (list Card)) (w : Rank) :
  Forall (fun x => Spec.offends x w = false) ms ->
  validate_all_melds ms w = Some (mkValidationResult true None).
Proof. destruct ms; [reflexivity | apply validate_from_clean]. Qed.

(** The [AIPlayer.take_turn] sequence: when [MeldFinder.can_go_out] on the
    current player's hand answers yes with its melds, [try_go_out] on the
    cards of those melds succeeds. *)
Theorem can_go_out_then_try_go_out (st : GameState) (p : Player) (w : Rank) (ms : list Meld) :
  current_player st = Done p -> get_wild_rank st = Done w ->
  can_go_out (hand_objects (hand p)) w = Some (true, Some ms) ->
  exists st', try_go_out st (map cards_of ms) = Done ((true, None), st').
Proof.
  intros Ecp Ew Hc.
  unfold can_go_out in Hc; apply obind_some in Hc as [[ms0 pts] [Hf Hc]]; simpl in Hc.
  destruct (Z.eqb_spec pts 0) as [-> | Hz]; inversion Hc; subst ms0; clear Hc.
  destruct (find_best_meld_combination_wf _ _ _ _ (hand_objects_ids (hand p)) Hf) as [Hwf [Hnd Hrem]].
  destruct (partition_of_zero _ _ _ (hand_objects_ids _) Hwf Hnd Hrem) as [Hperm Hvalid].
  assert (Hps : Permutation (concat (map cards_of ms)) (hand p)).
  { change (map cards_of ms) with (map (map (@snd nat Card)) ms).
    rewrite <- concat_map, <- (hand_objects_snd (hand p)).
    apply Permutation_map, Hperm. }
  unfold try_go_out; rewrite Ecp; simpl; rewrite Ew; simpl.
  rewrite fold_meld_sizes; simpl.
  rewrite (Permutation_length Hps), Nat.eqb_refl; simpl.
  assert (Hs : card_set_eqb (concat (map cards_of ms)) (hand p) = true).
  { apply card_set_eqb_spec; intros c; split; apply Permutation_in; [exact Hps | symmetry; exact Hps]. }
  rewrite Hs; simpl.
  rewrite validate_all_melds_clean; simpl.
  - destruct (current_player_split _ _ Ecp) as [pre [post [Ep Ei]]].
    rewrite (update_current_split st pre post p _ Ep Ei); simpl; eexists; reflexivity.
  - apply Forall_map, Forall_forall; intros m Hm.
    rewrite Forall_forall in Hvalid; specialize (Hvalid m Hm).
    unfold Spec.offends; apply orb_false_iff; split.
    + apply Nat.ltb_ge, (meld_valid_length _ w), Hvalid.
    + unfold Spec.meld_valid in Hvalid; rewrite Hvalid; reflexivity.
Qed.

Lemma can_go_out_then_try_go_out_witness :
  current_player Samples.state_go_out = Done (mkPlayer "A" Samples.cards_go_out 0 false) /\
  get_wild_rank Samples.state_go_out = Done R7 /\
  can_go_out (hand_objects (hand (mkPlayer "A" Samples.cards_go_out 0 false))) R7 =
    Some (true, Some Samples.melds_go_out) /\
  exists st', try_go_out Samples.state_go_out (map cards_of Samples.melds_go_out) = Done ((true, None), st').
Proof.
  assert (H1 : current_player Samples.state_go_out = Done (mkPlayer "A" Samples.cards_go_out 0 false))
    by reflexivity.
  assert (H2 : get_wild_rank Samples.state_go_out = Done R7) by (vm_compute; reflexivity).
  assert (H3 : can_go_out (hand_objects (hand (mkPlayer "A" Samples.cards_go_out 0 false))) R7 =
                 Some (true, Some Samples.melds_go_out)) by (vm_compute; reflexivity).
  split; [exact H1|]; split; [exact H2|]; split; [exact H3|].
  exact (can_go_out_then_try_go_out _ _ _ _ H1 H2 H3).
Defined.

(* ------------------------------------------------------------------ *)
(** ** The winner and the hand values *)

Lemma min_by_score_split (best : Player) (ps : list Player) :
  exists pre post, best :: ps = pre ++ min_by_score best ps :: post /\
    Forall (fun q => (score (min_by_score best ps) < score q)%Z) pre /\
    Forall (fun q => (score (min_by_score best ps) <= score q)%Z) post /\
    (score (min_by_score best ps) <= score best)%Z.
Proof.
  revert best; induction ps as [|p ps IH]; intros best; simpl.
  - exists [], []; split; [reflexivity | split; [constructor | split; [constructor | lia]]].
  - destruct (Z.ltb_spec (score p) (score best)) as [Hlt | Hge].
    + destruct (IH p) as [pre [post [E [Hpre [Hpost Hle]]]]].
      exists (best :: pre), post; split; [rewrite E; reflexivity|].
      split; [constructor; [lia | exact Hpre]|]; split; [exact Hpost | lia].
    + destruct (IH best) as [pre [post [E [Hpre [Hpost Hle]]]]].
      remember (min_by_score best ps) as m eqn:Em; clear Em.
      destruct pre as [|b pre]; simpl in E; injection E as E1 E2.
      * subst m ps.
        exists [], (p :: post); split; [reflexivity|].
        split; [constructor|]; split; [constructor; [lia | exact Hpost] | lia].
      * subst b ps; inversion Hpre as [|? ? Hb Hpre']; subst.
        exists (best :: p :: pre), post; split; [reflexivity|].
        split; [constructor; [exact Hb | constructor; [lia | exact Hpre']]|]; split; [exact Hpost | lia].
Qed.

(** [GameEngine.get_winner] answers [None] until the game is over; then it
    raises [ValueError] when there are no players, and otherwise returns
    the first player of least score: every player before it has a higher
    score, every player after it at least as high a score. *)
Theorem get_winner_spec (st : GameState) :
  (game_over st = false -> get_winner st = Done None) /\
  (game_over st = true -> players st = [] ->
     get_winner st = raise_value_error "min() iterable argument is empty"%string) /\
  (game_over st = true -> players st <> [] ->
     exists w pre post, get_winner st = Done (Some w) /\ players st = pre ++ w :: post /\
       Forall (fun q => (score w < score q)%Z) pre /\
       Forall (fun q => (score w <= score q)%Z) post).
Proof.
  unfold get_winner; split; [intros ->; reflexivity|].
  split; [intros -> ->; reflexivity|].
  intros -> Hne; destruct (players st) as [|p ps]; [contradiction Hne; reflexivity|].
  destruct (min_by_score_split p ps) as [pre [post [E [Hpre [Hpost _]]]]].
  exists (min_by_score p ps), pre, post; auto.
Qed.

Lemma card_value_le20 (c : Card) (w : Rank) (v : Z) : card_value c w = Some v -> (v <= 20)%Z.
Proof.
  unfold card_value; destruct (is_wild c w); [intros H; inversion H; lia|].
  destruct (existsb _ _); [intros H; inversion H; lia|].
  destruct c as [r s]; destruct r; simpl; intros H; inversion H; lia.
Qed.

Lemma hand_value_engine_fold (w : Rank) (cs : list Card) (acc : option Z) :
  fold_left
    (fun acc card =>
       total <- acc ;;
       if is_wild card w then Some (total + 20)%Z
       else if existsb (rank_eqb (rank card)) [RJ; RQ; RK] then Some (total + 10)%Z
       else v <- int_of_rank (rank card) ;; Some (total + v)%Z) cs acc =
  fold_left (fun acc card => total <- acc ;; x <- card_value card w ;; Some (total + x)%Z) cs acc.
Proof.
  revert acc; induction cs as [|c cs IH]; intros acc; cbn [fold_left]; [reflexivity|].
  rewrite IH; f_equal; destruct acc as [a|]; [|reflexivity].
  unfold card_value.
  destruct (is_wild c w), (existsb (rank_eqb (rank c)) [RJ; RQ; RK]), (int_of_rank (rank c));
    reflexivity.
Qed.

Lemma hand_value_engine (p : Player) (w : Rank) :
  calculate_hand_value p w = MeldFinder.calculate_hand_value (hand p) w.
Proof. apply hand_value_engine_fold. Qed.

Lemma hand_value_fold_bounds (w : Rank) (cs : list Card) (a : Z) :
  exists v, fold_left (fun acc card => total <- acc ;; x <- card_value card w ;; Some (total + x)%Z)
              cs (Some a) = Some v /\
    (a + 3 * Z.of_nat (length cs) <= v <= a + 20 * Z.of_nat (length cs))%Z.
Proof.
  revert a; induction cs as [|c cs IH]; intros a; simpl.
  - exists a; split; [reflexivity | lia].
  - destruct (card_value_total c w) as [x Hx]; rewrite Hx; simpl.
    pose proof (card_value_ge3 _ _ _ Hx); pose proof (card_value_le20 _ _ _ Hx).
    destruct (IH (a + x)%Z) as [v [Hv Hb]]; exists v; split; [exact Hv | lia].
Qed.

Lemma hand_value_fold_perm (w : Rank) (cs cs' : list Card) :
  Permutation cs cs' -> forall a,
  fold_left (fun acc card => total <- acc ;; x <- card_value card w ;; Some (total + x)%Z) cs (Some a) =
  fold_left (fun acc card => total <- acc ;; x <- card_value card w ;; Some (total + x)%Z) cs' (Some a).
Proof.
  induction 1 as [|c l l' _ IH|c d l|l l' l'' _ IH1 _ IH2]; intros a; simpl.
  - reflexivity.
  - destruct (card_value c w); simpl; [apply IH | rewrite !hand_value_none; reflexivity].
  - destruct (card_value c w) as [x|], (card_value d w) as [y|]; simpl;
      rewrite ?hand_value_none; try reflexivity.
    replace (a + y + x)%Z with (a + x + y)%Z by lia; reflexivity.
  - rewrite IH1; apply IH2.
Qed.

Lemma hand_value_fold_snoc (w : Rank) (cs : list Card) (c : Card) (a v x : Z) :
  fold_left (fun acc card => total <- acc ;; x <- card_value card w ;; Some (total + x)%Z) cs (Some a) = Some v ->
  card_value c w = Some x ->
  fold_left (fun acc card => total <- acc ;; x <- card_value card w ;; Some (total + x)%Z)
    (cs ++ [c]) (Some a) = Some (v + x)%Z.
Proof. intros Hv Hx; rewrite fold_left_app, Hv; simpl; rewrite Hx; reflexivity. Qed.

(** [Player.calculate_hand_value] never raises: it agrees with
    [MeldFinder._calculate_hand_value] on the hand, and a hand of [n] cards
    is worth between [3 * n] and [20 * n] points. *)
Theorem player_hand_value_spec (p : Player) (w : Rank) :
  calculate_hand_value p w = MeldFinder.calculate_hand_value (hand p) w /\
  exists v, calculate_hand_value p w = Some v /\
    (3 * Z.of_nat (length (hand p)) <= v <= 20 * Z.of_nat (length (hand p)))%Z.
Proof.
  rewrite hand_value_engine; split; [reflexivity|].
  destruct (hand_value_fold_bounds w (hand p) 0) as [v [Hv Hb]].
  exists v; split; [exact Hv | lia].
Qed.

(** How the hand operations change [Player.calculate_hand_value]: sorting
    keeps it, [add_card] adds the value of the card and a successful
    [remove_card] takes it away. *)
Theorem player_hand_value_ops (p : Player) (c : Card) (w : Rank) :
  calculate_hand_value (sort_hand p) w = calculate_hand_value p w /\
  (exists v x, calculate_hand_value p w = Some v /\ card_value c w = Some x /\
     calculate_hand_value (add_card p c) w = Some (v + x)%Z) /\
  (forall p', remove_card p c = Done p' ->
     exists v x, calculate_hand_value p' w = Some v /\ card_value c w = Some x /\
       calculate_hand_value p w = Some (v + x)%Z).
Proof.
  rewrite !hand_value_engine; split; [|split].
  - unfold MeldFinder.calculate_hand_value; apply hand_value_fold_perm, sort_cards_perm.
  - destruct (hand_value_fold_bounds w (hand p) 0) as [v [Hv _]].
    destruct (card_value_total c w) as [x Hx].
    exists v, x; split; [exact Hv | split; [exact Hx|]].
    apply hand_value_fold_snoc; assumption.
  - intros p' Hr; unfold remove_card in Hr.
    destruct (py_remove_spec c (hand p)) as [[_ E] | [pre [post [E [_ E2]]]]].
    + rewrite E in Hr; discriminate.
    + rewrite E2 in Hr; inversion Hr; subst p'; rewrite hand_value_engine; simpl.
      destruct (hand_value_fold_bounds w (pre ++ post) 0) as [v [Hv _]].
      destruct (card_value_total c w) as [x Hx].
      exists v, x; split; [exact Hv | split; [exact Hx|]].
      unfold MeldFinder.calculate_hand_value; rewrite E.
      rewrite (hand_value_fold_perm w (pre ++ c :: post) ((pre ++ post) ++ [c])).
      * apply hand_value_fold_snoc; assumption.
      * rewrite <- app_assoc; apply Permutation_app_head, Permutation_cons_append.
Qed.

(* ------------------------------------------------------------------ *)
(** ** [find_best_meld_combination] never raises *)

Lemma obind_total {A B : Type} (m : option A) (k : A -> option B) :
  (exists a, m = Some a) -> (forall a, exists b, k a = Some b) -> exists b, obind m k = Some b.
Proof. intros [a ->] Hk; apply Hk. Qed.

Lemma oflat_map_total {A B : Type} (f : A -> option (list B)) (l : list A) :
  (forall x, In x l -> exists r, f x = Some r) -> exists r, oflat_map f l = Some r.
Proof.
  induction l as [|a l IH]; intros Hf; simpl; [eauto|].
  apply obind_total; [apply Hf; left; reflexivity|]; intros xs.
  apply obind_total; [apply IH; intros x Hx; apply Hf; right; exact Hx|]; eauto.
Qed.

Lemma keep_run_total (m : Meld) (w : Rank) : exists l, keep_run m w = Some l.
Proof.
  unfold keep_run; apply obind_total; [apply is_valid_run_some|]; eauto.
Qed.

Lemma key_objs_total (os : list Obj) :
  (forall o, In o os -> rank (snd o) <> Joker) -> exists ks, key_objs os = Some ks.
Proof.
  induction os as [|o os IH]; intros H; simpl; [eauto|].
  destruct (RANK_VALUES_some (rank (snd o))) as [k [Hk _]]; [apply H; left; reflexivity|].
  rewrite Hk; cbn [obind].
  destruct IH as [ks Hks]; [intros x Hx; apply H; right; exact Hx|].
  rewrite Hks; cbn [obind]; eauto.
Qed.

Lemma find_all_runs_total (hand : list Obj) (w : Rank) : exists runs, find_all_runs hand w = Some runs.
Proof.
  unfold find_all_runs.
  pose proof (split_hand_inv suit_eqb suit w hand) as [_ [Hg _]].
  destruct (split_hand suit_eqb suit hand w) as [groups wilds]; simpl in Hg.
  assert (Hk : forall k g, In (k, g) groups -> exists s, sorted_by_rank g = Some s).
  { intros k g Hkg; unfold sorted_by_rank.
    destruct (key_objs_total g) as [ks Hks].
    - intros o Ho; apply (non_wild_not_joker _ w), Hg, in_concat.
      exists g; split; [apply (in_map snd _ _ Hkg) | exact Ho].
    - rewrite Hks; cbn [obind]; eauto. }
  apply obind_total.
  - apply oflat_map_total; intros [k g] Hkg; cbv beta iota.
    apply obind_total; [exact (Hk k g Hkg)|]; intros sc.
    apply oflat_map_total; intros n _; apply oflat_map_total; intros c _.
    apply obind_total; [apply keep_run_total|]; intros here.
    apply obind_total; [|eauto].
    apply oflat_map_total; intros nw _; apply oflat_map_total; intros wc _; apply keep_run_total.
  - intros fp; apply obind_total; [|eauto].
    apply oflat_map_total; intros [k g] _; cbv beta iota.
    apply oflat_map_total; intros n _; apply oflat_map_total; intros c _.
    apply oflat_map_total; intros nw _; apply oflat_map_total; intros wc _; cbv zeta.
    destruct (3 <=? length (c ++ wc)); [apply keep_run_total | eauto].
Qed.

Lemma remaining_points_total (hand : list Obj) (melds : list Meld) (w : Rank) :
  exists p, calculate_remaining_points hand melds w = Some p.
Proof. unfold calculate_remaining_points; apply hand_value_total. Qed.

Lemma remaining_points_nonneg (hand : list Obj) (melds : list Meld) (w : Rank) (p : Z) :
  calculate_remaining_points hand melds w = Some p -> (0 <= p)%Z.
Proof. unfold calculate_remaining_points, MeldFinder.calculate_hand_value; intros H; apply hand_value_grows in H; lia. Qed.

Lemma try_starts_total (hand : list Obj) (unique starts : list Meld) (w : Rank) (best : list Meld * Z) :
  exists res, try_starts hand unique w starts best = Some res.
Proof.
  revert best; induction starts as [|s starts IH]; intros best; simpl; [eauto|].
  destruct (greedy_loop_enough_fuel hand unique w [s]) as [r Hr]; rewrite Hr; cbn [obind].
  destruct (remaining_points_total hand r w) as [p Hp]; rewrite Hp; cbn [obind]; apply IH.
Qed.

Lemma try_starts_le (hand : list Obj) (unique starts : list Meld) (w : Rank) (best res : list Meld * Z) :
  try_starts hand unique w starts best = Some res -> (snd res <= snd best)%Z.
Proof.
  revert best; induction starts as [|s starts IH]; intros best H; simpl in H.
  - inversion H; subst; lia.
  - apply obind_some in H as [r [_ H]]; apply obind_some in H as [p [_ H]].
    apply IH in H; destruct (Z.ltb_spec p (snd best)); simpl in H; lia.
Qed.

Lemma find_best_total_le (hand : list Obj) (w : Rank) :
  exists ms p v, find_best_meld_combination hand w = Some (ms, p) /\
    MeldFinder.calculate_hand_value (cards_of hand) w = Some v /\ (p <= v)%Z.
Proof.
  destruct hand as [|o os].
  - exists [], 0%Z, 0%Z; split; [reflexivity | split; [reflexivity | lia]].
  - unfold find_best_meld_combination.
    destruct (find_all_runs_total (o :: os) w) as [runs Hr].
    unfold find_all_melds; rewrite Hr; cbn [obind].
    destruct (hand_value_total (cards_of (o :: os)) w) as [v Hv]; rewrite Hv; cbn [obind].
    set (u := remove_duplicate_melds (find_all_books (o :: os) w ++ runs)).
    destruct (try_starts_total (o :: os) u u w ([], v)) as [best Hb]; rewrite Hb; cbn [obind].
    pose proof (try_starts_le _ _ _ _ _ _ Hb) as Hle; simpl in Hle.
    destruct (greedy_loop_enough_fuel (o :: os) u w []) as [res Hres]; rewrite Hres; cbn [obind].
    destruct (remaining_points_total (o :: os) res w) as [rp Hrp]; rewrite Hrp; cbn [obind].
    destruct (Z.ltb_spec rp (snd best)).
    + exists res, rp, v; split; [reflexivity | split; [first [exact Hv | reflexivity] | lia]].
    + exists (fst best), (snd best), v; split; [destruct best; reflexivity | split; [first [exact Hv | reflexivity] | lia]].
Qed.

(** [MeldFinder.find_best_meld_combination] never raises on a hand: it
    returns disjoint candidate melds of the hand (each a valid book or run
    of distinct cards of the hand) together with their exact leftover
    points, which are never negative and never more than the value of the
    whole hand. *)
Theorem find_best_meld_combination_spec (h : list Card) (w : Rank) :
  exists ms pts v, find_best_meld_combination (hand_objects h) w = Some (ms, pts) /\
    MeldFinder.calculate_hand_value h w = Some v /\
    Forall (well_formed_meld (hand_objects h) w) ms /\ NoDup (used_ids ms) /\
    calculate_remaining_points (hand_objects h) ms w = Some pts /\ (0 <= pts <= v)%Z.
Proof.
  destruct (find_best_total_le (hand_objects h) w) as [ms [p [v [Hf [Hv Hle]]]]].
  unfold cards_of in Hv; rewrite hand_objects_snd in Hv.
  destruct (find_best_meld_combination_wf _ _ _ _ (hand_objects_ids h) Hf) as [Hw [Hn Hp]].
  exists ms, p, v; split; [exact Hf | split; [exact Hv | split; [exact Hw | split; [exact Hn | split; [exact Hp|]]]]].
  split; [apply (remaining_points_nonneg _ _ _ _ Hp) | exact Hle].
Qed.

(** [MeldFinder.can_go_out] never raises, and it answers true exactly when
    [find_best_meld_combination] leaves no points. *)
Theorem can_go_out_total (h : list Card) (w : Rank) :
  exists ms pts, find_best_meld_combination (hand_objects h) w = Some (ms, pts) /\
    can_go_out (hand_objects h) w =
      Some (if (pts =? 0)%Z then (true, Some ms) else (false, None)).
Proof.
  destruct (find_best_total_le (hand_objects h) w) as [ms [p [v [Hf _]]]].
  exists ms, p; split; [exact Hf|].
  unfold can_go_out; rewrite Hf; cbn [obind fst snd]; destruct (p =? 0)%Z; reflexivity.
Qed.

(* ------------------------------------------------------------------ *)
(** ** The candidate melds and their deduplication *)

(** [MeldFinder.find_all_melds] never raises on a hand, and each meld it
    proposes is made of distinct card objects of the hand and is a valid
    book or run. *)
Theorem find_all_melds_spec (h : list Card) (w : Rank) :
  exists all, find_all_melds (hand_objects h) w = Some all /\
    forall m, In m all -> well_formed_meld (hand_objects h) w m.
Proof.
  destruct (find_all_runs_total (hand_objects h) w) as [runs Hr].
  assert (Hall : find_all_melds (hand_objects h) w = Some (find_all_books (hand_objects h) w ++ runs))
    by (unfold find_all_melds; rewrite Hr; reflexivity).
  exists (find_all_books (hand_objects h) w ++ runs); split; [exact Hall|].
  intros m Hm; apply (find_all_melds_wf _ _ _ _ (NoDup_map_inv fst _ (hand_objects_ids h)) Hall Hm).
Qed.

Lemma pair_eqb_spec (x y : Rank * Suit) : pair_eqb x y = true <-> x = y.
Proof.
  destruct x as [r s], y as [r' s']; unfold pair_eqb; simpl.
  rewrite andb_true_iff, rank_eqb_spec, suit_eqb_spec; split; [intros [-> ->]; reflexivity|].
  intros E; inversion E; split; reflexivity.
Qed.

Lemma frozenset_eqb_spec (s t : list (Rank * Suit)) :
  frozenset_eqb s t = true <-> (forall x, In x s <-> In x t).
Proof.
  unfold frozenset_eqb; rewrite andb_true_iff, !forallb_forall; split.
  - intros [H1 H2] x; split; intros Hx.
    + apply H1, existsb_exists in Hx as [y [Hy E]]; apply pair_eqb_spec in E; subst; exact Hy.
    + apply H2, existsb_exists in Hx as [y [Hy E]]; apply pair_eqb_spec in E; subst; exact Hy.
  - intros H; split; intros x Hx; apply existsb_exists; exists x;
      (split; [apply H, Hx | apply pair_eqb_spec; reflexivity]).
Qed.

Lemma dedup_loop_spec (seen : list (list (Rank * Suit))) (all : list Meld) :
  (forall m, In m all ->
     (exists s, In s seen /\ forall x, In x s <-> In x (cards_to_frozenset m)) \/
     (exists m', In m' (dedup_loop seen all) /\
        forall x, In x (cards_to_frozenset m) <-> In x (cards_to_frozenset m'))) /\
  (forall m', In m' (dedup_loop seen all) -> forall s, In s seen ->
     ~ (forall x, In x s <-> In x (cards_to_frozenset m'))) /\
  ForallOrdPairs (fun a b => ~ (forall x, In x (cards_to_frozenset a) <-> In x (cards_to_frozenset b)))
    (dedup_loop seen all).
Proof.
  revert seen; induction all as [|m rest IH]; intros seen; simpl.
  - split; [tauto | split; [tauto | constructor]].
  - destruct (existsb (frozenset_eqb (cards_to_frozenset m)) seen) eqn:E.
    + destruct (IH seen) as [I1 [I2 I3]]; split; [|split; [exact I2 | exact I3]].
      intros m0 [<- | Hm0]; [|apply I1, Hm0].
      left; apply existsb_exists in E as [s [Hs Es]].
      pose proof (proj1 (frozenset_eqb_spec _ _) Es) as Es'.
      exists s; split; [exact Hs | intros x; symmetry; apply Es'].
    + destruct (IH (cards_to_frozenset m :: seen)) as [I1 [I2 I3]].
      assert (Hnot : forall s, In s seen -> ~ (forall x, In x s <-> In x (cards_to_frozenset m))).
      { intros s Hs Hsame.
        assert (Ht : existsb (frozenset_eqb (cards_to_frozenset m)) seen = true).
        { apply existsb_exists; exists s; split; [exact Hs|].
          apply frozenset_eqb_spec; intros x; symmetry; apply Hsame. }
        rewrite Ht in E; discriminate. }
      split; [|split].
      * intros m0 [<- | Hm0].
        -- right; exists m; split; [left; reflexivity | intros x; reflexivity].
        -- destruct (I1 m0 Hm0) as [[s [[<- | Hs] Hsame]] | [m' [Hm' Hsame]]].
           ++ right; exists m; split; [left; reflexivity | intros x; symmetry; apply Hsame].
           ++ left; exists s; split; [exact Hs | exact Hsame].
           ++ right; exists m'; split; [right; exact Hm' | exact Hsame].
      * intros m' [<- | Hm'] s Hs; [apply Hnot, Hs|].
        apply (I2 m' Hm'); right; exact Hs.
      * constructor; [|exact I3].
        apply Forall_forall; intros b Hb; apply (I2 b Hb); left; reflexivity.
Qed.

(** The [# Remove duplicate melds] loop of [find_best_meld_combination]
    keeps only melds of its input, keeps for every input meld one with the
    same set of (rank, suit) pairs, and keeps no two melds with the same
    set of (rank, suit) pairs. *)
Theorem remove_duplicate_melds_spec (all : list Meld) :
  incl (remove_duplicate_melds all) all /\
  (forall m, In m all -> exists m', In m' (remove_duplicate_melds all) /\
     forall x, In x (cards_to_frozenset m) <-> In x (cards_to_frozenset m')) /\
  ForallOrdPairs (fun a b => ~ (forall x, In x (cards_to_frozenset a) <-> In x (cards_to_frozenset b)))
    (remove_duplicate_melds all).
Proof.
  destruct (dedup_loop_spec [] all) as [I1 [_ I3]].
  split; [apply dedup_loop_incl|]; split; [|exact I3].
  intros m Hm; destruct (I1 m Hm) as [[s [[] _]] | H]; exact H.
Qed.

(* ------------------------------------------------------------------ *)
(** ** The greedy selection stops only when no candidate fits *)

Lemma select_best_mono (w : Rank) (used : list nat) (all : list Meld) (best : option Meld)
    (bp : Z) (res : option Meld) (p : Z) :
  select_best w used all best bp = Some (res, p) -> (bp <= p)%Z.
Proof.
  intros H; destruct (select_best_gain _ _ _ _ _ _ _ H) as [[_ ->] | [m [_ [_ Hl]]]]; lia.
Qed.

Lemma select_best_max (w : Rank) (used : list nat) (all : list Meld) (best : option Meld)
    (bp : Z) (res : option Meld) (p : Z) :
  select_best w used all best bp = Some (res, p) ->
  forall m v, In m all -> existsb (fun o => mem_id (fst o) used) m = false ->
  MeldFinder.calculate_hand_value (cards_of m) w = Some v -> (v <= p)%Z.
Proof.
  revert best bp; induction all as [|x all IH]; intros best bp H m v Hm Hd Hv; [contradiction|].
  simpl in H; destruct Hm as [<- | Hm].
  - rewrite Hd, Hv in H; cbn [obind] in H.
    destruct (Z.ltb_spec bp v); apply select_best_mono in H; lia.
  - destruct (existsb (fun o => mem_id (fst o) used) x); [exact (IH _ _ H m v Hm Hd Hv)|].
    apply obind_some in H as [ps [_ H]].
    destruct (bp <? ps)%Z; exact (IH _ _ H m v Hm Hd Hv).
Qed.

Lemma greedy_loop_max (fuel : nat) (w : Rank) (all : list Meld) (used : list nat)
    (result r : list Meld) :
  used = used_ids result -> greedy_loop fuel w all used result = Some r ->
  (exists added, r = result ++ added /\ incl added all) /\
  (forall m, In m all -> m <> [] -> exists o, In o m /\ In (fst o) (used_ids r)).
Proof.
  revert used result; induction fuel as [|fuel IH]; intros used result Hu H; simpl in H;
    [discriminate|].
  apply obind_some in H as [[res p] [Hs H]]; simpl in H.
  destruct res as [b|].
  - destruct (select_best_from _ _ _ _ _ _ _ b Hs eq_refl) as [Hb | [Hb _]]; [discriminate|].
    destruct (IH (used ++ ids_of b) (result ++ [b])) as [[added [Er Hinc]] Hmax]; [| exact H |].
    { subst; rewrite used_ids_app; simpl; rewrite app_nil_r; reflexivity. }
    split; [|exact Hmax].
    exists (b :: added); split; [rewrite Er, <- app_assoc; reflexivity|].
    apply incl_cons; [exact Hb | exact Hinc].
  - inversion H; subst r used; split.
    + exists []; rewrite app_nil_r; split; [reflexivity | apply incl_nil_l].
    + intros m Hm Hne.
      destruct (existsb (fun o => mem_id (fst o) (used_ids result)) m) eqn:Ex.
      * apply existsb_exists in Ex as [o [Ho Hi]]; apply mem_id_spec in Hi; eauto.
      * exfalso.
        destruct (select_best_gain _ _ _ _ _ _ _ Hs) as [[_ Hp] | [m' [E _]]]; [|discriminate].
        subst p; destruct (hand_value_total (cards_of m) w) as [v Hv].
        pose proof (select_best_max _ _ _ _ _ _ _ Hs m v Hm Ex Hv) as Hle.
        unfold MeldFinder.calculate_hand_value in Hv; apply hand_value_grows in Hv as [_ Hg].
        assert (Hc : cards_of m <> []) by (unfold cards_of; intros E; apply map_eq_nil in E; contradiction).
        specialize (Hg Hc); lia.
Qed.

(** [MeldFinder._greedy_meld_selection] only appends candidate melds to the
    melds it starts from, and it stops only when every non-empty candidate
    meld shares a card object with the melds selected. *)
Theorem greedy_meld_selection_maximal (hand : list Obj) (all current r : list Meld) (w : Rank) :
  greedy_meld_selection hand all w current = Some r ->
  (exists added, r = current ++ added /\ incl added all) /\
  (forall m, In m all -> m <> [] -> exists o, In o m /\ In (fst o) (used_ids r)).
Proof. unfold greedy_meld_selection; apply greedy_loop_max; reflexivity. Qed.

Lemma greedy_meld_selection_maximal_witness :
  exists r, greedy_meld_selection (hand_objects Samples.cards_go_out) Samples.melds_go_out R7 [] = Some r /\
  (exists added, r = [] ++ added /\ incl added Samples.melds_go_out) /\
  (forall m, In m Samples.melds_go_out -> m <> [] -> exists o, In o m /\ In (fst o) (used_ids r)).
Proof.
  destruct (greedy_meld_selection (hand_objects Samples.cards_go_out) Samples.melds_go_out R7 [])
    as [r|] eqn:E; [|vm_compute in E; discriminate].
  exists r; split; [reflexivity|].
  exact (greedy_meld_selection_maximal _ _ _ _ _ E).
Defined.
